(** * Aukmind Image Converter: the conversion pipeline of the Vue component

    A shallow embedding of the [<script setup>] block of the converter
    component (the merge-capable component, and the earlier [src/App.vue]
    that only knows the per-file path), followed by the properties of the
    orchestration logic: path selection, frame construction for merged
    animations, packaging, extension resolution, edit application, failure
    messages, file ingestion and the reactive watchers.

    The image engine (magick-wasm), the archiver (JSZip) and the browser are
    external collaborators.  They are taken as a record of functions, [Env];
    every engine call may raise.  Each image keeps the list of engine calls
    issued on it, so that "which operation was issued, with which arguments,
    in which order" can be stated. *)

From Stdlib Require Import List String Ascii Bool Arith ZArith QArith Qround Lia.
From Stdlib Require Import DecimalString.
Import ListNotations.

Local Open Scope string_scope.
Local Open Scope Z_scope.

(** ** Exceptions

    A JavaScript exception is an [Error] carrying a [message]; a
    computation that may throw returns a [result]. *)

Record Error := { message : string }.

Inductive result (A : Type) : Type :=
| Ok (a : A)
| Throw (e : Error).
Arguments Ok {A} a.
Arguments Throw {A} e.

Definition bind {A B} (c : result A) (k : A -> result B) : result B :=
  match c with
  | Ok a => k a
  | Throw e => Throw e
  end.

Declare Scope js_scope.
Delimit Scope js_scope with js.
Notation "x <- c ;; k" := (bind c (fun x => k))
  (at level 61, c at next level, right associativity) : js_scope.
Local Open Scope js_scope.

(** ** Strings, as the script uses them *)

Module Js.

(** [s.includes(needle)] *)
Fixpoint includes (needle s : string) : bool :=
  String.prefix needle s ||
  match s with
  | EmptyString => false
  | String _ rest => includes needle rest
  end.

(** [s.startsWith(p)] *)
Definition startsWith (p s : string) : bool := String.prefix p s.

Definition lowerChar (c : ascii) : ascii :=
  let n := nat_of_ascii c in
  if ((65 <=? n) && (n <=? 90))%nat then ascii_of_nat (n + 32) else c.

(** [s.toLowerCase()], on the ASCII range *)
Fixpoint toLowerCase (s : string) : string :=
  match s with
  | EmptyString => EmptyString
  | String c rest => String (lowerChar c) (toLowerCase rest)
  end.

(** [xs.join(sep)] *)
Fixpoint join (sep : string) (xs : list string) : string :=
  match xs with
  | [] => ""
  | [x] => x
  | x :: rest => x ++ sep ++ join sep rest
  end.

(** [xs.slice(0, n)] *)
Definition slice0 {A} (n : nat) (xs : list A) : list A := firstn n xs.

(** Template-literal rendering of an integer. *)
Definition showZ (z : Z) : string := NilZero.string_of_int (Z.to_int z).

Definition notSlashDot (c : ascii) : bool :=
  negb (Ascii.eqb c "/") && negb (Ascii.eqb c ".").

Definition nonEmpty (s : string) : bool :=
  match s with EmptyString => false | _ => true end.

Fixpoint allChars (p : ascii -> bool) (s : string) : bool :=
  match s with
  | EmptyString => true
  | String c rest => p c && allChars p rest
  end.

(** [s.replace(/\.[^/.]+$/, "")]: the leftmost position at which a dot is
    followed, up to the end of the string, by one or more characters that
    are neither a slash nor a dot; the string is cut there.  Without a
    match the string is returned as it is. *)
Fixpoint stripExtension (s : string) : string :=
  match s with
  | EmptyString => EmptyString
  | String c rest =>
      if Ascii.eqb c "." && nonEmpty rest && allChars notSlashDot rest
      then EmptyString
      else String c (stripExtension rest)
  end.

(** Values a [ref] bound to an [<input type="number">] holds: the initial
    [null], the empty string of a cleared field, or a number (integers
    here). *)
Inductive value :=
| Null
| EmptyStr
| Num (z : Z).

Definition value_eqb (a b : value) : bool :=
  match a, b with
  | Null, Null => true
  | EmptyStr, EmptyStr => true
  | Num x, Num y => x =? y
  | _, _ => false
  end.

(** Truthiness, as [a && b] and [c ? x : y] test it. *)
Definition truthy (v : value) : bool :=
  match v with
  | Num z => negb (z =? 0)
  | _ => false
  end.

(** [parseInt(v)] on a truthy value. *)
Definition parseInt (v : value) : Z :=
  match v with
  | Num z => z
  | _ => 0
  end.

(** Numeric coercion, as [v / 10] applies it. *)
Definition toNumber (v : value) : Z :=
  match v with
  | Num z => z
  | _ => 0
  end.

(** [Math.round]: the nearest integer, ties towards plus infinity. *)
Definition round (q : Q) : Z := Qfloor (q + (1 # 2)).

End Js.

(** ** Formats

    The members of magick-wasm's [MagickFormat] that the component names,
    and [OtherFormat n] for the other members of that enumeration. *)

Inductive MagickFormat :=
| Png | Jpeg | Gif | Ico | WebP | Pdf
| Bmp | Tiff | Tga | Avif | Dds
| OtherFormat (n : nat).

(** [a === b] on formats *)
Definition format_eqb (a b : MagickFormat) : bool :=
  match a, b with
  | Png, Png | Jpeg, Jpeg | Gif, Gif | Ico, Ico | WebP, WebP | Pdf, Pdf
  | Bmp, Bmp | Tiff, Tiff | Tga, Tga | Avif, Avif | Dds, Dds => true
  | OtherFormat x, OtherFormat y => Nat.eqb x y
  | _, _ => false
  end.

Definition quickFormats : list (string * MagickFormat) :=
  [ ("PNG", Png); ("JPG", Jpeg); ("GIF", Gif);
    ("ICO", Ico); ("WEBP", WebP); ("PDF", Pdf) ].

Definition extraFormats : list (string * MagickFormat) :=
  [ ("BMP", Bmp); ("TIFF", Tiff); ("TGA", Tga); ("AVIF", Avif); ("DDS", Dds) ].

(** [Object.keys(table).find(key => table[key] === target)] *)
Definition findKey (table : list (string * MagickFormat)) (target : MagickFormat)
  : option string :=
  option_map fst (find (fun kv => format_eqb (snd kv) target) table).

(** [formats.includes(target)] *)
Definition includesFormat (formats : list MagickFormat) (target : MagickFormat) : bool :=
  existsb (fun f => format_eqb f target) formats.

(** The extension computed at the head of [convertAndDownload] (the same
    statements in both components). *)
Definition resolveExtension (target : MagickFormat) : string :=
  let ext := "dat" in
  let ext := match findKey quickFormats target with
             | Some quickKey => Js.toLowerCase quickKey
             | None => ext
             end in
  let ext := match findKey extraFormats target with
             | Some extraKey => Js.toLowerCase extraKey
             | None => ext
             end in
  if String.eqb ext "jpeg" then "jpg" else ext.

(** ** Files, blobs and images *)

Module File.
(** A browser [File]: its name, its declared mime type, its content. *)
Record t := { name : string; type : string; bytes : list Byte.byte }.
End File.

Module FileItem.
(** An entry of [files]: [{ file, id, preview, renderError }]. *)
Record t := {
  file : File.t;
  id : string;
  preview : string;
  renderError : bool
}.
End FileItem.

(** [new Blob([data], { type: `image/${format}` })], or the blob the
    archiver generates. *)
Inductive Blob :=
| ImageBlob (data : list Byte.byte) (format : MagickFormat)
| ArchiveBlob (data : list Byte.byte).

(** [new MagickColor(r, g, b, a)] *)
Record MagickColor := { red : Z; green : Z; blue : Z; alpha : Z }.

Definition GRAVITY_CENTER : Z := 5.

(** The engine calls issued on one image, in the order of the calls. *)
Inductive EngineCall :=
| CallRead (input : list Byte.byte)
| CallRotate (degrees : Z)
| CallResize (w h : Q)
| CallResizeGeometry (w h : Z) (ignoreAspectRatio : bool)
| CallExtent (w h : Z) (gravity : Z).

Module Image.
(** A [MagickImage]: the properties the script reads or assigns, the
    bytes it was decoded from and the engine calls issued on it. *)
Record t := {
  source : list Byte.byte;
  width : Z;
  height : Z;
  format : option MagickFormat;
  quality : option Z;
  animationDelay : Z;
  gifDisposeMethod : Z;
  backgroundColor : option MagickColor;
  calls : list EngineCall
}.

(** What [MagickImage.create()] followed by a successful [read] gives:
    the decoded size, no property assigned yet. *)
Definition fresh (input : list Byte.byte) (size : Z * Z) : t :=
  {| source := input; width := fst size; height := snd size;
     format := None; quality := None;
     animationDelay := 0; gifDisposeMethod := 0; backgroundColor := None;
     calls := [CallRead input] |}.

(** The image after an engine call that left it with the given size. *)
Definition after (c : EngineCall) (size : Z * Z) (im : t) : t :=
  {| source := source im; width := fst size; height := snd size;
     format := format im; quality := quality im;
     animationDelay := animationDelay im;
     gifDisposeMethod := gifDisposeMethod im;
     backgroundColor := backgroundColor im;
     calls := calls im ++ [c] |}.

Definition set_format (f : MagickFormat) (im : t) : t :=
  {| source := source im; width := width im; height := height im;
     format := Some f; quality := quality im;
     animationDelay := animationDelay im;
     gifDisposeMethod := gifDisposeMethod im;
     backgroundColor := backgroundColor im; calls := calls im |}.

Definition set_quality (q : Z) (im : t) : t :=
  {| source := source im; width := width im; height := height im;
     format := format im; quality := Some q;
     animationDelay := animationDelay im;
     gifDisposeMethod := gifDisposeMethod im;
     backgroundColor := backgroundColor im; calls := calls im |}.

Definition set_animationDelay (d : Z) (im : t) : t :=
  {| source := source im; width := width im; height := height im;
     format := format im; quality := quality im;
     animationDelay := d;
     gifDisposeMethod := gifDisposeMethod im;
     backgroundColor := backgroundColor im; calls := calls im |}.

Definition set_gifDisposeMethod (m : Z) (im : t) : t :=
  {| source := source im; width := width im; height := height im;
     format := format im; quality := quality im;
     animationDelay := animationDelay im;
     gifDisposeMethod := m;
     backgroundColor := backgroundColor im; calls := calls im |}.

Definition set_backgroundColor (c : MagickColor) (im : t) : t :=
  {| source := source im; width := width im; height := height im;
     format := format im; quality := quality im;
     animationDelay := animationDelay im;
     gifDisposeMethod := gifDisposeMethod im;
     backgroundColor := Some c; calls := calls im |}.
End Image.

(** ** The external collaborators

    The engine decides whether a call succeeds and which size the image
    has afterwards; the archiver turns the entries of a zip into a blob;
    the browser supplies random identifiers and object URLs. *)

Record Env := {
  (* MagickImage.read(bytes): size of the decoded image *)
  readImage : list Byte.byte -> result (Z * Z);
  (* MagickImageCollection.read(bytes): sizes of the decoded frames *)
  readCollection : list Byte.byte -> result (list (Z * Z));
  rotate : Z -> Image.t -> result (Z * Z);
  resize : Q -> Q -> Image.t -> result (Z * Z);
  resizeGeometry : Z -> Z -> bool -> Image.t -> result (Z * Z);
  extent : Z -> Z -> Z -> Image.t -> result (Z * Z);
  coalesce : list Image.t -> result (list Image.t);
  optimize : list Image.t -> result (list Image.t);
  writeImage : MagickFormat -> Image.t -> result (list Byte.byte);
  writeCollection : MagickFormat -> list Image.t -> result (list Byte.byte);
  (* JSZip: generateAsync over the entries added with zip.file *)
  generateAsync : list (string * Blob) -> result (list Byte.byte);
  (* Math.random().toString(36).substr(2, 9), by number of the draw *)
  randomId : nat -> string;
  createObjectURL : File.t -> string
}.

(** ** The reactive state

    One field per [ref] of the script that the conversion logic reads or
    writes ([progress], [progressLabel], [isDragging] and [showMoreDropdown]
    only feed the template and are left out), and two fields for the
    browser: the calls of [triggerDownload] made so far and the number of
    [Math.random] draws. *)

Inductive ResizeMode := ModeNone | ModePercent | ModePixels.

(** One call [triggerDownload(blob, filename)]. *)
Record Download := { blob : Blob; filename : string }.

Record State := {
  isReady : bool;
  processing : bool;
  files : list FileItem.t;
  targetFormat : MagickFormat;
  zipOutput : bool;
  errorMessage : string;
  makeAnimation : bool;
  animationDelay : Js.value;
  resizeMode : ResizeMode;
  resizePercent : Z;
  resizeWidth : Js.value;
  resizeHeight : Js.value;
  lockRatio : bool;
  rotation : Z;
  quality : Z;
  downloads : list Download;
  draws : nat
}.

Definition set_isReady (v : bool) (s : State) : State :=
  Build_State v (processing s) (files s) (targetFormat s) (zipOutput s)
    (errorMessage s) (makeAnimation s) (animationDelay s) (resizeMode s)
    (resizePercent s) (resizeWidth s) (resizeHeight s) (lockRatio s)
    (rotation s) (quality s) (downloads s) (draws s).

Definition set_processing (v : bool) (s : State) : State :=
  Build_State (isReady s) v (files s) (targetFormat s) (zipOutput s)
    (errorMessage s) (makeAnimation s) (animationDelay s) (resizeMode s)
    (resizePercent s) (resizeWidth s) (resizeHeight s) (lockRatio s)
    (rotation s) (quality s) (downloads s) (draws s).

Definition set_files (v : list FileItem.t) (s : State) : State :=
  Build_State (isReady s) (processing s) v (targetFormat s) (zipOutput s)
    (errorMessage s) (makeAnimation s) (animationDelay s) (resizeMode s)
    (resizePercent s) (resizeWidth s) (resizeHeight s) (lockRatio s)
    (rotation s) (quality s) (downloads s) (draws s).

Definition set_targetFormat (v : MagickFormat) (s : State) : State :=
  Build_State (isReady s) (processing s) (files s) v (zipOutput s)
    (errorMessage s) (makeAnimation s) (animationDelay s) (resizeMode s)
    (resizePercent s) (resizeWidth s) (resizeHeight s) (lockRatio s)
    (rotation s) (quality s) (downloads s) (draws s).

Definition set_zipOutput (v : bool) (s : State) : State :=
  Build_State (isReady s) (processing s) (files s) (targetFormat s) v
    (errorMessage s) (makeAnimation s) (animationDelay s) (resizeMode s)
    (resizePercent s) (resizeWidth s) (resizeHeight s) (lockRatio s)
    (rotation s) (quality s) (downloads s) (draws s).

Definition set_errorMessage (v : string) (s : State) : State :=
  Build_State (isReady s) (processing s) (files s) (targetFormat s)
    (zipOutput s) v (makeAnimation s) (animationDelay s) (resizeMode s)
    (resizePercent s) (resizeWidth s) (resizeHeight s) (lockRatio s)
    (rotation s) (quality s) (downloads s) (draws s).

Definition set_makeAnimation (v : bool) (s : State) : State :=
  Build_State (isReady s) (processing s) (files s) (targetFormat s)
    (zipOutput s) (errorMessage s) v (animationDelay s) (resizeMode s)
    (resizePercent s) (resizeWidth s) (resizeHeight s) (lockRatio s)
    (rotation s) (quality s) (downloads s) (draws s).

Definition set_animationDelay (v : Js.value) (s : State) : State :=
  Build_State (isReady s) (processing s) (files s) (targetFormat s)
    (zipOutput s) (errorMessage s) (makeAnimation s) v (resizeMode s)
    (resizePercent s) (resizeWidth s) (resizeHeight s) (lockRatio s)
    (rotation s) (quality s) (downloads s) (draws s).

Definition set_resizeMode (v : ResizeMode) (s : State) : State :=
  Build_State (isReady s) (processing s) (files s) (targetFormat s)
    (zipOutput s) (errorMessage s) (makeAnimation s) (animationDelay s) v
    (resizePercent s) (resizeWidth s) (resizeHeight s) (lockRatio s)
    (rotation s) (quality s) (downloads s) (draws s).

Definition set_resizePercent (v : Z) (s : State) : State :=
  Build_State (isReady s) (processing s) (files s) (targetFormat s)
    (zipOutput s) (errorMessage s) (makeAnimation s) (animationDelay s)
    (resizeMode s) v (resizeWidth s) (resizeHeight s) (lockRatio s)
    (rotation s) (quality s) (downloads s) (draws s).

Definition set_resizeWidth (v : Js.value) (s : State) : State :=
  Build_State (isReady s) (processing s) (files s) (targetFormat s)
    (zipOutput s) (errorMessage s) (makeAnimation s) (animationDelay s)
    (resizeMode s) (resizePercent s) v (resizeHeight s) (lockRatio s)
    (rotation s) (quality s) (downloads s) (draws s).

Definition set_resizeHeight (v : Js.value) (s : State) : State :=
  Build_State (isReady s) (processing s) (files s) (targetFormat s)
    (zipOutput s) (errorMessage s) (makeAnimation s) (animationDelay s)
    (resizeMode s) (resizePercent s) (resizeWidth s) v (lockRatio s)
    (rotation s) (quality s) (downloads s) (draws s).

Definition set_lockRatio (v : bool) (s : State) : State :=
  Build_State (isReady s) (processing s) (files s) (targetFormat s)
    (zipOutput s) (errorMessage s) (makeAnimation s) (animationDelay s)
    (resizeMode s) (resizePercent s) (resizeWidth s) (resizeHeight s) v
    (rotation s) (quality s) (downloads s) (draws s).

Definition set_rotation (v : Z) (s : State) : State :=
  Build_State (isReady s) (processing s) (files s) (targetFormat s)
    (zipOutput s) (errorMessage s) (makeAnimation s) (animationDelay s)
    (resizeMode s) (resizePercent s) (resizeWidth s) (resizeHeight s)
    (lockRatio s) v (quality s) (downloads s) (draws s).

Definition set_quality (v : Z) (s : State) : State :=
  Build_State (isReady s) (processing s) (files s) (targetFormat s)
    (zipOutput s) (errorMessage s) (makeAnimation s) (animationDelay s)
    (resizeMode s) (resizePercent s) (resizeWidth s) (resizeHeight s)
    (lockRatio s) (rotation s) v (downloads s) (draws s).

Definition set_downloads (v : list Download) (s : State) : State :=
  Build_State (isReady s) (processing s) (files s) (targetFormat s)
    (zipOutput s) (errorMessage s) (makeAnimation s) (animationDelay s)
    (resizeMode s) (resizePercent s) (resizeWidth s) (resizeHeight s)
    (lockRatio s) (rotation s) (quality s) v (draws s).

Definition set_draws (v : nat) (s : State) : State :=
  Build_State (isReady s) (processing s) (files s) (targetFormat s)
    (zipOutput s) (errorMessage s) (makeAnimation s) (animationDelay s)
    (resizeMode s) (resizePercent s) (resizeWidth s) (resizeHeight s)
    (lockRatio s) (rotation s) (quality s) (downloads s) v.

(** The values the [ref]s are created with. *)
Definition initial : State :=
  {| isReady := false; processing := false; files := [];
     targetFormat := Png; zipOutput := false; errorMessage := "";
     makeAnimation := false; animationDelay := Js.Num 200;
     resizeMode := ModeNone; resizePercent := 50;
     resizeWidth := Js.Null; resizeHeight := Js.Null; lockRatio := true;
     rotation := 0; quality := 90; downloads := []; draws := 0 |}.

(** ** The conversion logic *)

(** [isMultiFrameFormat] (computed) *)
Definition isMultiFrameFormat (s : State) : bool :=
  includesFormat [Gif; WebP; Pdf; Tiff] (targetFormat s).

(** [canMergeAnimation] (computed) *)
Definition canMergeAnimation (s : State) : bool :=
  if (List.length (files s) <? 2)%nat then false
  else includesFormat [Gif; WebP] (targetFormat s).

(** The [catch] clause of [convertAndDownload]: the text assigned to
    [errorMessage] for a caught exception. *)
Definition failureMessage (e : Error) : string :=
  if Js.includes "FailedToExecuteCommand" (message e) || Js.includes "ffmpeg" (message e)
  then "This format requires external libraries (ffmpeg) not available. Please use GIF or WebP."
  else if Js.includes "ImagesAreNotTheSameSize" (message e)
  then "GIF Error: Frames mismatch. Please ensure 'Resize' width/height are set if locking ratio."
  else "Conversion failed. " ++ message e.

(** The exception of a property access on [undefined] (the wording is the
    browser's; this is V8's for [collection[0].write] on an empty
    collection). *)
Definition undefinedAccess (property : string) : Error :=
  {| message := "Cannot read properties of undefined (reading '" ++ property ++ "')" |}.

(** [zip.file(name, blob)]: a later entry of the same name replaces the
    earlier one, in its place. *)
Fixpoint zipFile (name : string) (b : Blob) (entries : list (string * Blob))
  : list (string * Blob) :=
  match entries with
  | [] => [(name, b)]
  | (n, old) :: rest =>
      if String.eqb n name then (name, b) :: rest
      else (n, old) :: zipFile name b rest
  end.

(** Which branch of [convertAndDownload] ran. *)
Inductive Path := MergePath | PerFilePath.

Section Pipeline.

Variable E : Env.

(** [image.rotate(d)], [image.resize(w, h)], [image.resize(geom)] and
    [image.extent(w, h, gravity)]: the engine answers, the call is
    recorded on the image. *)
Definition imageRotate (d : Z) (im : Image.t) : result Image.t :=
  size <- rotate E d im ;;
  Ok (Image.after (CallRotate d) size im).

Definition imageResize (w h : Q) (im : Image.t) : result Image.t :=
  size <- resize E w h im ;;
  Ok (Image.after (CallResize w h) size im).

Definition imageResizeGeometry (w h : Z) (ignoreAspectRatio : bool) (im : Image.t)
  : result Image.t :=
  size <- resizeGeometry E w h ignoreAspectRatio im ;;
  Ok (Image.after (CallResizeGeometry w h ignoreAspectRatio) size im).

Definition imageExtent (w h gravity : Z) (im : Image.t) : result Image.t :=
  size <- extent E w h gravity im ;;
  Ok (Image.after (CallExtent w h gravity) size im).

(** [applyEdits(image)]; the same statements stand inline in
    [processSingleImage] of [src/App.vue]. *)
Definition applyEdits (s : State) (image : Image.t) : result Image.t :=
  image <- (if negb (rotation s =? 0) then imageRotate (rotation s) image
            else Ok image) ;;
  match resizeMode s with
  | ModePercent =>
      let p := (inject_Z (resizePercent s) / inject_Z 100)%Q in
      imageResize (inject_Z (Image.width image) * p)%Q
                  (inject_Z (Image.height image) * p)%Q image
  | ModePixels =>
      let w := if Js.truthy (resizeWidth s) then Js.parseInt (resizeWidth s)
               else Image.width image in
      let h := if Js.truthy (resizeHeight s) then Js.parseInt (resizeHeight s)
               else Image.height image in
      if lockRatio s then imageResize (inject_Z w) (inject_Z h) image
      else imageResizeGeometry w h true image
  | ModeNone => Ok image
  end.

(** The body of the frame loop of [processSingleImage]. *)
Definition editFrame (s : State) (image : Image.t) : result Image.t :=
  image <- applyEdits s image ;;
  Ok (Image.set_quality (quality s) (Image.set_format (targetFormat s) image)).

Fixpoint editFrames (s : State) (collection : list Image.t) : result (list Image.t) :=
  match collection with
  | [] => Ok []
  | image :: rest =>
      image <- editFrame s image ;;
      rest <- editFrames s rest ;;
      Ok (image :: rest)
  end.

(** [processSingleImage(file)] *)
Definition processSingleImage (s : State) (f : File.t) : result Blob :=
  let bytes := File.bytes f in
  sizes <- readCollection E bytes ;;
  let collection := map (Image.fresh bytes) sizes in
  collection <- coalesce E collection ;;
  collection <- editFrames s collection ;;
  if isMultiFrameFormat s then
    collection <- (if format_eqb (targetFormat s) Gif then optimize E collection
                   else Ok collection) ;;
    data <- writeCollection E (targetFormat s) collection ;;
    Ok (ImageBlob data (targetFormat s))
  else
    match collection with
    | [] => Throw (undefinedAccess "write")
    | firstFrame :: _ =>
        data <- writeImage E (targetFormat s) firstFrame ;;
        Ok (ImageBlob data (targetFormat s))
    end.

(** The test that guards [image.extent] in [processMergeAnimation]. *)
Definition padsCanvas (s : State) : bool :=
  format_eqb (targetFormat s) Gif
  && match resizeMode s with ModePixels => true | _ => false end
  && Js.truthy (resizeWidth s)
  && Js.truthy (resizeHeight s)
  && lockRatio s.

(** The body of the loop of [processMergeAnimation]: the frame made from
    one input file. *)
Definition mergeFrame (s : State) (f : File.t) : result Image.t :=
  let bytes := File.bytes f in
  size <- readImage E bytes ;;
  let image := Image.fresh bytes size in
  image <- applyEdits s image ;;
  image <- (if padsCanvas s then
              let w := Js.parseInt (resizeWidth s) in
              let h := Js.parseInt (resizeHeight s) in
              let image := Image.set_backgroundColor
                             {| red := 0; green := 0; blue := 0; alpha := 0 |} image in
              imageExtent w h GRAVITY_CENTER image
            else Ok image) ;;
  let image := Image.set_animationDelay
                 (Js.round (inject_Z (Js.toNumber (animationDelay s)) / inject_Z 10)%Q)
                 image in
  let image := if format_eqb (targetFormat s) Gif
               then Image.set_gifDisposeMethod 2 image else image in
  Ok image.

(** The loop of [processMergeAnimation]: each frame is pushed on the
    collection. *)
Fixpoint mergeFrames (s : State) (items : list FileItem.t) (collection : list Image.t)
  : result (list Image.t) :=
  match items with
  | [] => Ok collection
  | item :: rest =>
      image <- mergeFrame s (FileItem.file item) ;;
      mergeFrames s rest (collection ++ [image])
  end.

(** [processMergeAnimation()] *)
Definition processMergeAnimation (s : State) : result Blob :=
  collection <- mergeFrames s (files s) [] ;;
  collection <- (if format_eqb (targetFormat s) Gif then optimize E collection
                 else Ok collection) ;;
  data <- writeCollection E (targetFormat s) collection ;;
  Ok (ImageBlob data (targetFormat s)).

(** The loop of the per-file branch: [processedFiles] grows by one
    [{ name, blob }] per converted item. *)
Fixpoint convertEach (convert : File.t -> result Blob) (ext : string)
    (items : list FileItem.t) (processedFiles : list (string * Blob))
  : result (list (string * Blob)) :=
  match items with
  | [] => Ok processedFiles
  | item :: rest =>
      convertedBlob <- convert (FileItem.file item) ;;
      let newName := Js.stripExtension (File.name (FileItem.file item)) ++ "." ++ ext in
      convertEach convert ext rest (processedFiles ++ [(newName, convertedBlob)])
  end.

(** The packaging statements that follow the loop (the same in both
    components). *)
Definition deliver (s : State) (totalFiles : nat) (processedFiles : list (string * Blob))
  : result (list Download) :=
  if zipOutput s || (1 <? totalFiles)%nat then
    let zip := fold_left (fun z f => zipFile (fst f) (snd f) z) processedFiles [] in
    content <- generateAsync E zip ;;
    Ok [ {| blob := ArchiveBlob content; filename := "converted_images.zip" |} ]
  else
    match processedFiles with
    | [] => Throw (undefinedAccess "blob")
    | first :: _ => Ok [ {| blob := snd first; filename := fst first |} ]
    end.

(** The per-file branch. *)
Definition perFile (convert : File.t -> result Blob) (s : State) (ext : string)
  : result (list Download) :=
  let totalFiles := List.length (files s) in
  processedFiles <- convertEach convert ext (files s) [] ;;
  deliver s totalFiles processedFiles.

(** The [try] block of [convertAndDownload]: the branch taken and the
    downloads it triggers, or the exception it raises. *)
Definition tryBlock (s : State) : Path * result (list Download) :=
  let ext := resolveExtension (targetFormat s) in
  if makeAnimation s && canMergeAnimation s then
    (MergePath,
     b <- processMergeAnimation s ;;
     Ok [ {| blob := b; filename := "animation." ++ ext |} ])
  else
    (PerFilePath, perFile (processSingleImage s) s ext).

(** [convertAndDownload()], up to the timer its [finally] clause sets
    (the event [TimerFired] below). *)
Definition convertAndDownload (s : State) : State :=
  if (List.length (files s) =? 0)%nat then s
  else
    let s := set_errorMessage "" (set_processing true s) in
    match snd (tryBlock s) with
    | Ok triggered => set_downloads (downloads s ++ triggered) s
    | Throw e => set_errorMessage (failureMessage e) s
    end.

(** The branch a call of [convertAndDownload] takes; none when the call
    returns at its first statement. *)
Definition pathTaken (s : State) : option Path :=
  if (List.length (files s) =? 0)%nat then None
  else Some (fst (tryBlock (set_errorMessage "" (set_processing true s)))).

(** What a call of [convertAndDownload] hands to [triggerDownload]. *)
Definition delivered (s : State) : list Download :=
  skipn (List.length (downloads s)) (downloads (convertAndDownload s)).

End Pipeline.

(** ** File handling *)

Section Ingestion.

Variable E : Env.

Definition isImage (f : File.t) : bool := Js.startsWith "image/" (File.type f).

(** [validFiles.map(f => ({ file: f, id: ..., preview: ..., renderError: false }))],
    the identifiers being the draws [n], [n + 1], ... *)
Fixpoint withPreviews (n : nat) (validFiles : list File.t) : list FileItem.t :=
  match validFiles with
  | [] => []
  | f :: rest =>
      {| FileItem.file := f; FileItem.id := randomId E n;
         FileItem.preview := createObjectURL E f;
         FileItem.renderError := false |} :: withPreviews (S n) rest
  end.

(** The text [addFiles] assigns to [errorMessage]. *)
Definition rejectionMessage (rejectedNames : list string) : string :=
  if (0 <? List.length rejectedNames)%nat then
    let displayNames := Js.join ", " (Js.slice0 5 rejectedNames) in
    let extraCount := Z.of_nat (List.length rejectedNames) - 5 in
    let suffix := if 0 <? extraCount
                  then ", and " ++ Js.showZ extraCount ++ " others."
                  else "." in
    "Skipped unsupported files: " ++ displayNames ++ suffix
  else "".

(** [addFiles(fileList)] *)
Definition addFiles (fileList : list File.t) (s : State) : State :=
  let allFiles := fileList in
  let validFiles := filter isImage allFiles in
  let rejectedNames := map File.name (filter (fun f => negb (isImage f)) allFiles) in
  let s := set_errorMessage (rejectionMessage rejectedNames) s in
  let filesWithPreviews := withPreviews (draws s) validFiles in
  set_draws (draws s + List.length validFiles)%nat
    (set_files (files s ++ filesWithPreviews) s).

(** [removeFile(id)] *)
Definition removeFile (id : string) (s : State) : State :=
  set_files (filter (fun f => negb (String.eqb (FileItem.id f) id)) (files s)) s.

(** [rotateLeft()] and [rotateRight()]; [%] truncates towards zero. *)
Definition rotateLeft (s : State) : State :=
  set_rotation (Z.rem (rotation s - 90) 360) s.
Definition rotateRight (s : State) : State :=
  set_rotation (Z.rem (rotation s + 90) 360) s.

End Ingestion.

(** ** The watchers *)

(** [watch(targetFormat, ...)] *)
Definition onTargetFormat (s : State) : State :=
  if negb (canMergeAnimation s) then set_makeAnimation false s else s.

(** [watch(() => files.value.length, ...)] *)
Definition onFilesLength (newCount : nat) (s : State) : State :=
  let s := if (1 <? newCount)%nat && negb (makeAnimation s)
           then set_zipOutput true s else s in
  if (newCount <? 2)%nat then set_makeAnimation false s else s.

(** [watch([resizeWidth, resizeHeight], ...)] *)
Definition onResizeBox (newW newH : Js.value) (s : State) : State :=
  if Js.truthy newW && Js.truthy newH
     && match resizeMode s with ModePixels => true | _ => false end
  then set_lockRatio false s else s.

(** After a handler has run, each watcher whose source differs from its
    value before the handler is called once, in the order of the [watch]
    statements. *)
Definition flush (before after : State) : State :=
  let s := after in
  let s := if format_eqb (targetFormat before) (targetFormat s) then s
           else onTargetFormat s in
  let s := if (List.length (files before) =? List.length (files s))%nat then s
           else onFilesLength (List.length (files s)) s in
  if Js.value_eqb (resizeWidth before) (resizeWidth s)
     && Js.value_eqb (resizeHeight before) (resizeHeight s)
  then s
  else onResizeBox (resizeWidth s) (resizeHeight s) s.

(** ** The component as a state machine

    One event per handler the template binds; [enabled] is the condition
    under which the template renders the control (its [v-if]) and lets it
    act (its [:disabled]).  A conversion is taken as one step. *)

Inductive Event :=
| EngineLoaded
| EngineFailed (reason : string)
| AddFiles (fileList : list File.t)
| RemoveFile (id : string)
| SelectFormat (f : MagickFormat)
| SetQuality (q : Z)
| ToggleMakeAnimation
| SetAnimationDelay (v : Js.value)
| RotateLeft
| RotateRight
| SetResizeMode (m : ResizeMode)
| SetResizePercent (p : Z)
| SetResizeWidth (v : Js.value)
| SetResizeHeight (v : Js.value)
| ToggleLockRatio
| ToggleZipOutput
| Convert
| TimerFired.

Definition isPixels (s : State) : bool :=
  match resizeMode s with ModePixels => true | _ => false end.

Definition typed (v : Js.value) : bool :=
  match v with Js.Null => false | _ => true end.

Definition enabled (e : Event) (s : State) : bool :=
  match e with
  | EngineLoaded | EngineFailed _ => negb (isReady s)
  | AddFiles _ => true
  | RemoveFile id => existsb (fun f => String.eqb (FileItem.id f) id) (files s)
  | SelectFormat f => includesFormat (map snd (quickFormats ++ extraFormats)) f
  | SetQuality q => (1 <=? q) && (q <=? 100)
  | ToggleMakeAnimation => canMergeAnimation s
  | SetAnimationDelay v => canMergeAnimation s && makeAnimation s && typed v
  | RotateLeft | RotateRight => true
  | SetResizeMode _ => true
  | SetResizePercent p => match resizeMode s with ModePercent => true | _ => false end
                          && (1 <=? p) && (p <=? 200)
  | SetResizeWidth v | SetResizeHeight v => isPixels s && typed v
  | ToggleLockRatio => isPixels s
  | ToggleZipOutput => negb (makeAnimation s)
  | Convert => isReady s && negb (List.length (files s) =? 0)%nat && negb (processing s)
  | TimerFired => processing s
  end.

Section Machine.

Variable E : Env.

(** The handler of an event. *)
Definition handle (e : Event) (s : State) : State :=
  match e with
  | EngineLoaded => set_isReady true s
  | EngineFailed reason => set_errorMessage ("Failed to load Magick: " ++ reason) s
  | AddFiles fileList => addFiles E fileList s
  | RemoveFile id => removeFile id s
  | SelectFormat f => set_targetFormat f s
  | SetQuality q => set_quality q s
  | ToggleMakeAnimation => set_makeAnimation (negb (makeAnimation s)) s
  | SetAnimationDelay v => set_animationDelay v s
  | RotateLeft => rotateLeft s
  | RotateRight => rotateRight s
  | SetResizeMode m => set_resizeMode m s
  | SetResizePercent p => set_resizePercent p s
  | SetResizeWidth v => set_resizeWidth v s
  | SetResizeHeight v => set_resizeHeight v s
  | ToggleLockRatio => set_lockRatio (negb (lockRatio s)) s
  | ToggleZipOutput => set_zipOutput (negb (zipOutput s)) s
  | Convert => convertAndDownload E s
  | TimerFired => set_processing false s
  end.

(** One step: the handler, then the watchers. *)
Definition fire (e : Event) (s : State) : State := flush s (handle e s).

(** [run events s]: the state reached from [s] by the events, in order,
    each of them enabled when it occurs. *)
Inductive run : list Event -> State -> State -> Prop :=
| run_nil s : run [] s s
| run_snoc events e s s' :
    run events s s' -> enabled e s' = true -> run (events ++ [e]) s (fire e s').

End Machine.

(** ** The earlier component, [src/App.vue]

    It has no merge branch; what differs from the above is given here, the
    rest ([resolveExtension], [applyEdits], [convertEach], [deliver]) is
    shared, the statements being the same. *)

Module AppVue.
Section AppVue.

Variable E : Env.

(** [processSingleImage(file)]: one image is read, edited and written. *)
Definition processSingleImage (s : State) (f : File.t) : result Blob :=
  let bytes := File.bytes f in
  size <- readImage E bytes ;;
  let image := Image.fresh bytes size in
  image <- applyEdits E s image ;;
  let image := Image.set_quality (quality s) (Image.set_format (targetFormat s) image) in
  data <- writeImage E (targetFormat s) image ;;
  Ok (ImageBlob data (targetFormat s)).

Definition tryBlock (s : State) : result (list Download) :=
  let ext := resolveExtension (targetFormat s) in
  perFile E (processSingleImage s) s ext.

(** [convertAndDownload()] *)
Definition convertAndDownload (s : State) : State :=
  if (List.length (files s) =? 0)%nat then s
  else
    let s := set_errorMessage "" (set_processing true s) in
    match tryBlock s with
    | Ok triggered => set_downloads (downloads s ++ triggered) s
    | Throw e => set_errorMessage ("Conversion failed. " ++ message e) s
    end.

Definition delivered (s : State) : list Download :=
  skipn (List.length (downloads s)) (downloads (convertAndDownload s)).

(** [addFiles(fileList)] *)
Definition addFiles (fileList : list File.t) (s : State) : State :=
  let newFiles := filter isImage fileList in
  let filesWithPreviews := withPreviews E (draws s) newFiles in
  set_errorMessage ""
    (set_draws (draws s + List.length newFiles)%nat
       (set_files (files s ++ filesWithPreviews) s)).

(** [watch(() => files.value.length, ...)] *)
Definition onFilesLength (newCount : nat) (s : State) : State :=
  if (1 <? newCount)%nat then set_zipOutput true s else s.

End AppVue.
End AppVue.

(** ** A small engine to run the definitions on

    Sizes are read off the first two bytes of the input; an input with
    fewer bytes, or a zero among them, is not an image.  Rotation by an odd
    number of quarter turns swaps the sides, [resize] fits the box keeping
    the ratio, a geometry that ignores the ratio and [extent] give the
    requested size, and a multi-frame GIF wants frames of one size. *)

Module Demo.

Definition sizeOf (input : list Byte.byte) : result (Z * Z) :=
  match input with
  | a :: b :: _ =>
      let w := Z.of_N (Byte.to_N a) in
      let h := Z.of_N (Byte.to_N b) in
      if (w =? 0) || (h =? 0)
      then Throw {| message := "ImproperImageHeader" |}
      else Ok (w, h)
  | _ => Throw {| message := "NoDecodeDelegateForThisImageFormat" |}
  end.

Definition fit (w h : Q) (im : Image.t) : Z * Z :=
  let sw := (w / inject_Z (Image.width im))%Q in
  let sh := (h / inject_Z (Image.height im))%Q in
  let k := if Qle_bool sw sh then sw else sh in
  (Js.round (inject_Z (Image.width im) * k)%Q, Js.round (inject_Z (Image.height im) * k)%Q).

Definition sameSize (a b : Image.t) : bool :=
  (Image.width a =? Image.width b) && (Image.height a =? Image.height b).

Definition encode (f : MagickFormat) (frames : list Image.t) : result (list Byte.byte) :=
  match frames with
  | [] => Throw {| message := "NoImagesDefined" |}
  | first :: rest =>
      if format_eqb f Gif && negb (forallb (sameSize first) rest)
      then Throw {| message := "ImagesAreNotTheSameSize" |}
      else Ok (List.concat (map Image.source frames))
  end.

Definition blobData (b : Blob) : list Byte.byte :=
  match b with ImageBlob data _ => data | ArchiveBlob data => data end.

Definition env : Env :=
  {| readImage := sizeOf;
     readCollection := fun input => size <- sizeOf input ;; Ok [size];
     rotate := fun d im =>
       Ok (if Z.odd (Z.quot d 90) then (Image.height im, Image.width im)
           else (Image.width im, Image.height im));
     resize := fun w h im => Ok (fit w h im);
     resizeGeometry := fun w h ignoreAspectRatio im =>
       Ok (if ignoreAspectRatio then (w, h) else fit (inject_Z w) (inject_Z h) im);
     extent := fun w h _ _ => Ok (w, h);
     coalesce := fun frames => Ok frames;
     optimize := fun frames => Ok frames;
     writeImage := fun f im => encode f [im];
     writeCollection := encode;
     generateAsync := fun entries => Ok (List.concat (map (fun e => blobData (snd e)) entries));
     randomId := fun n => "id" ++ Js.showZ (Z.of_nat n);
     createObjectURL := fun f => "blob:" ++ File.name f |}.

(** A 200x100 picture, a 100x100 picture, a text file and something that
    claims to be a picture but does not decode. *)
Definition wide : File.t :=
  {| File.name := "wide.png"; File.type := "image/png";
     File.bytes := [Byte.xc8; Byte.x64; Byte.x01] |}.
Definition square : File.t :=
  {| File.name := "square.jpeg"; File.type := "image/jpeg";
     File.bytes := [Byte.x64; Byte.x64; Byte.x02] |}.
Definition notes (n : Z) : File.t :=
  {| File.name := "notes" ++ Js.showZ n ++ ".txt"; File.type := "text/plain";
     File.bytes := [] |}.
Definition broken : File.t :=
  {| File.name := "broken.png"; File.type := "image/png"; File.bytes := [] |}.

Definition item (n : nat) (f : File.t) : FileItem.t :=
  {| FileItem.file := f; FileItem.id := randomId env n;
     FileItem.preview := createObjectURL env f; FileItem.renderError := false |}.

(** The state after the engine has loaded and the given files were added. *)
Definition loaded (fs : list File.t) : State :=
  fire env (AddFiles fs) (fire env EngineLoaded initial).

(** Three pictures, GIF selected, merging switched on. *)
Definition threeFramesGif : State :=
  fire env ToggleMakeAnimation
    (fire env (SelectFormat Gif) (loaded [wide; square; wide])).

(** The same with a 64x64 box typed in and the ratio lock switched back
    on. *)
Definition boxEvents : list Event :=
  [ SetResizeMode ModePixels; SetResizeWidth (Js.Num 64);
    SetResizeHeight (Js.Num 64); ToggleLockRatio ].

Definition threeFramesBoxed : State :=
  fold_left (fun s e => fire env e s) boxEvents threeFramesGif.


(** The image [read] makes of a file, and what [applyEdits] makes of it. *)
Definition decoded (f : File.t) : Image.t :=
  match sizeOf (File.bytes f) with
  | Ok size => Image.fresh (File.bytes f) size
  | Throw _ => Image.fresh (File.bytes f) (0, 0)
  end.

Definition edited (s : State) (f : File.t) : Image.t :=
  match applyEdits env s (decoded f) with
  | Ok out => out
  | Throw _ => decoded f
  end.

(** The frame the merge loop makes of a file. *)
Definition frame (s : State) (f : File.t) : Image.t :=
  match mergeFrame env s f with
  | Ok out => out
  | Throw _ => decoded f
  end.

(** Seven text files and one picture, selected together. *)
Definition selection : list File.t :=
  [ notes 1; notes 2; wide; notes 3; notes 4; notes 5; notes 6; notes 7 ].

(** The events that lead to [threeFramesBoxed]. *)
Definition boxedEvents : list Event :=
  ([ EngineLoaded; AddFiles [wide; square; wide]; SelectFormat Gif;
     ToggleMakeAnimation ] ++ boxEvents)%list.

(** A picture and a file that does not decode, to be merged into a WebP
    animation. *)
Definition brokenMerge : State :=
  fire env ToggleMakeAnimation
    (fire env (SelectFormat WebP) (loaded [wide; broken])).


(** One text file and one picture, selected together. *)
Definition pair : list File.t := [ notes 1; wide ].

End Demo.



(** ** Vocabulary of the statements *)

(** [occursIn needle s]: [needle] is a contiguous part of [s]. *)
Definition occursIn (needle s : string) : Prop :=
  exists pre post, s = pre ++ needle ++ post.

(** The two tables together. *)
Definition catalog : list (string * MagickFormat) := quickFormats ++ extraFormats.

(** The state in which the [try] block runs. *)
Definition started (s : State) : State :=
  set_errorMessage "" (set_processing true s).

(** The two fixed texts of the [catch] clause. *)
Definition codecAdvice : string :=
  "This format requires external libraries (ffmpeg) not available. Please use GIF or WebP.".

Definition frameSizeAdvice : string :=
  "GIF Error: Frames mismatch. Please ensure 'Resize' width/height are set if locking ratio.".

(** The name under which the converted item is kept. *)
Definition newName (ext : string) (item : FileItem.t) : string :=
  Js.stripExtension (File.name (FileItem.file item)) ++ "." ++ ext.

(** [converts convert item b]: the converter turns the item into [b]. *)
Definition converts (convert : File.t -> result Blob) (item : FileItem.t) (b : Blob) : Prop :=
  convert (FileItem.file item) = Ok b.

(** The entries of the archive: one [zip.file] call per converted item, in
    order. *)
Definition zipEntries (processedFiles : list (string * Blob)) : list (string * Blob) :=
  fold_left (fun z f => zipFile (fst f) (snd f) z) processedFiles [].

(** [packaged E convert s triggered]: what a completed per-file run of the
    component whose converter is [convert] hands to [triggerDownload].
    With the zip flag set or more than one item, the one archive
    "converted_images.zip" made of the converted items under their derived
    names; otherwise the converted image of the only item, under its
    derived name. *)
Definition packaged (E : Env) (convert : File.t -> result Blob) (s : State)
    (triggered : list Download) : Prop :=
  let ext := resolveExtension (targetFormat s) in
  let bundle := zipOutput s = true \/ (1 < List.length (files s))%nat in
  (bundle ->
     exists blobs content,
       Forall2 (converts convert) (files s) blobs /\
       generateAsync E (zipEntries (combine (map (newName ext) (files s)) blobs))
       = Ok content /\
       triggered = [ {| blob := ArchiveBlob content;
                        filename := "converted_images.zip" |} ]) /\
  (~ bundle ->
     exists item data,
       files s = [item] /\
       convert (FileItem.file item) = Ok (ImageBlob data (targetFormat s)) /\
       triggered = [ {| blob := ImageBlob data (targetFormat s);
                        filename := Js.stripExtension (File.name (FileItem.file item))
                                    ++ "." ++ ext |} ]) /\
  ((exists content,
       triggered = [ {| blob := ArchiveBlob content;
                        filename := "converted_images.zip" |} ])
   <-> bundle).


(** The events replayed from a state, as long as each is enabled when its
    turn comes. *)
Fixpoint replay (E : Env) (events : list Event) (s : State) : option State :=
  match events with
  | [] => Some s
  | e :: rest => if enabled e s then replay E rest (fire E e s) else None
  end.

(** The precondition of the canvas step that does not depend on the
    target: mode Pixels, both sides set, ratio locked. *)
Definition boxLocked (s : State) : Prop :=
  resizeMode s = ModePixels /\
  Js.truthy (resizeWidth s) = true /\ Js.truthy (resizeHeight s) = true /\
  lockRatio s = true.

(** The names [addFiles] rejects. *)
Definition rejectedNamesOf (fileList : list File.t) : list string :=
  map File.name (filter (fun f => negb (isImage f)) fileList).

(** Two states agree on the resize box: mode, width, height and lock. *)
Definition sameBox (a b : State) : Prop :=
  resizeMode a = resizeMode b /\
  resizeWidth a = resizeWidth b /\ resizeHeight a = resizeHeight b /\
  lockRatio a = lockRatio b.

(** What the third watcher leaves in [lockRatio] when the box went from
    [(w0, h0)] to [(w, h)]. *)
Definition lockAfter (w0 h0 w h : Js.value) (s : State) : bool :=
  if Js.value_eqb w0 w && Js.value_eqb h0 h then lockRatio s
  else if Js.truthy w && Js.truthy h && isPixels s then false
  else lockRatio s.

(** ** The other computed values of the script *)

(** [isMoreSelected] (computed) *)
Definition isMoreSelected (s : State) : bool :=
  includesFormat (map snd extraFormats) (targetFormat s).

(** [currentMoreLabel] (computed) *)
Definition currentMoreLabel (s : State) : option string :=
  findKey extraFormats (targetFormat s).

(** ** Further vocabulary *)

(** An extension the pattern of [stripExtension] takes off again: not
    empty, without a dot or a slash. *)
Definition cleanExtension (ext : string) : bool :=
  Js.nonEmpty ext && Js.allChars Js.notSlashDot ext.

(** A string without a dot. *)
Definition dotless (s : string) : bool :=
  Js.allChars (fun c => negb (Ascii.eqb c ".")) s.

(** The blob kept under a name in a list of entries: that of the first
    entry of the name. *)
Definition entryOf (name : string) (entries : list (string * Blob)) : option Blob :=
  option_map snd (find (fun e => String.eqb (fst e) name) entries).

(** The item with another file name. *)
Definition renamed (name : string) (item : FileItem.t) : FileItem.t :=
  {| FileItem.file := {| File.name := name;
                         File.type := File.type (FileItem.file item);
                         File.bytes := File.bytes (FileItem.file item) |};
     FileItem.id := FileItem.id item;
     FileItem.preview := FileItem.preview item;
     FileItem.renderError := FileItem.renderError item |}.

(** The frame the merge loop makes of an item. *)
Definition framed (E : Env) (s : State) (item : FileItem.t) (frame : Image.t) : Prop :=
  mergeFrame E s (FileItem.file item) = Ok frame.

(** [keeps s' s]: [s'] has the files, the target, the rotation, the flags
    of the run and the downloads of [s], and merging is not switched on
    from [s] to [s']. *)
Definition keeps (s' s : State) : Prop :=
  files s' = files s /\ targetFormat s' = targetFormat s /\
  rotation s' = rotation s /\ processing s' = processing s /\
  isReady s' = isReady s /\ downloads s' = downloads s /\
  errorMessage s' = errorMessage s /\
  (makeAnimation s' = true -> makeAnimation s = true).

(** A whole number of quarter turns. *)
Definition quarterTurns (r : Z) : Prop := exists k, r = 90 * k.

(** * Properties *)

(** Closed facts about the demo engine are settled by evaluation. *)
Ltac evaluate := vm_compute; first [reflexivity | discriminate | tauto].

(** ** Formats and strings *)

Lemma format_eqb_spec (a b : MagickFormat) : reflect (a = b) (format_eqb a b).
Proof.
  destruct a, b; simpl; try (constructor; congruence).
  destruct (Nat.eqb_spec n n0); constructor; congruence.
Qed.

Lemma format_eqb_refl (a : MagickFormat) : format_eqb a a = true.
Proof. destruct (format_eqb_spec a a); congruence. Qed.

Lemma includesFormat_In (formats : list MagickFormat) (f : MagickFormat) :
  includesFormat formats f = true <-> In f formats.
Proof.
  unfold includesFormat. rewrite existsb_exists. split.
  - intros [g [Hin Heq]]. destruct (format_eqb_spec g f); congruence.
  - intros Hin. exists f. split; [assumption | apply format_eqb_refl].
Qed.

(** The formats that can be merged into an animation are GIF and WebP. *)
Lemma mergeable_formats (f : MagickFormat) :
  includesFormat [Gif; WebP] f = true <-> f = Gif \/ f = WebP.
Proof.
  rewrite includesFormat_In. simpl. intuition congruence.
Qed.

Lemma append_assoc (a b c : string) : (a ++ b) ++ c = a ++ (b ++ c).
Proof. induction a as [|x a IH]; simpl; [reflexivity | rewrite IH; reflexivity]. Qed.

Lemma prefix_append (p s : string) :
  String.prefix p s = true <-> exists post, s = p ++ post.
Proof.
  revert s. induction p as [|c p IH]; intros s.
  - split; [intros _; exists s; reflexivity | intros _; destruct s; reflexivity].
  - destruct s as [|d s]; simpl.
    + split; [discriminate | intros [post H]; discriminate].
    + destruct (Ascii.ascii_dec c d) as [->|Hneq].
      * rewrite IH. split; intros [post H]; exists post; congruence.
      * split; [discriminate | intros [post H]; congruence].
Qed.

Lemma includes_occursIn (needle s : string) :
  Js.includes needle s = true <-> occursIn needle s.
Proof.
  induction s as [|c s IH]; cbn [Js.includes].
  - rewrite orb_false_r, prefix_append. split.
    + intros [post H]. exists "", post. assumption.
    + intros [pre [post H]]. destruct pre; simpl in H.
      * exists post. assumption.
      * discriminate.
  - rewrite orb_true_iff, prefix_append, IH. split.
    + intros [[post H] | [pre [post H]]].
      * exists "", post. assumption.
      * exists (String c pre), post. simpl. congruence.
    + intros [pre [post H]]. destruct pre as [|d pre]; simpl in H.
      * left. exists post. assumption.
      * right. exists pre, post. congruence.
Qed.

(** C6. The extension resolved for a target format is "jpg" for JPEG, the
    lower-cased key under which the format stands in the two tables for
    every other format of the tables, and "dat" for a format that stands
    in neither table. *)
Theorem resolveExtension_by_format (f : MagickFormat) :
  (f = Jpeg -> resolveExtension f = "jpg") /\
  (forall key, In (key, f) catalog -> f <> Jpeg ->
     resolveExtension f = Js.toLowerCase key) /\
  ((forall key, ~ In (key, f) catalog) -> resolveExtension f = "dat").
Proof.
  split; [intros ->; reflexivity | split].
  - intros key Hin Hjpeg. unfold catalog in Hin. simpl in Hin.
    repeat (destruct Hin as [Hin | Hin];
            [injection Hin as <- <-; try reflexivity; congruence |]).
    contradiction.
  - intros Hnone. destruct f; try reflexivity;
      exfalso; eapply Hnone; unfold catalog; simpl; eauto 12.
Qed.

Lemma resolveExtension_by_format_witness :
  resolveExtension Jpeg = "jpg" /\
  resolveExtension WebP = "webp" /\
  resolveExtension (OtherFormat 0) = "dat".
Proof.
  destruct (resolveExtension_by_format Jpeg) as [Hjpeg _].
  destruct (resolveExtension_by_format WebP) as [_ [Hkey _]].
  destruct (resolveExtension_by_format (OtherFormat 0)) as [_ [_ Hother]].
  split; [apply Hjpeg; reflexivity | split].
  - apply (Hkey "WEBP"); [unfold catalog; simpl; tauto | discriminate].
  - apply Hother. intros key. unfold catalog. simpl.
    intros H; repeat (destruct H as [H | H]; [discriminate H |]); exact H.
Defined.

(** ** The branch taken *)

Section PathProperties.

Variable E : Env.

Lemma length_zero_iff {A} (l : list A) : (List.length l =? 0)%nat = true <-> l = [].
Proof. destruct l; simpl; split; congruence. Qed.

Lemma canMergeAnimation_iff (s : State) :
  canMergeAnimation s = true <->
  (targetFormat s = Gif \/ targetFormat s = WebP) /\ (2 <= List.length (files s))%nat.
Proof.
  unfold canMergeAnimation.
  destruct (Nat.ltb_spec (List.length (files s)) 2).
  - split; [discriminate | intros [_ ?]; lia].
  - rewrite mergeable_formats. intuition.
Qed.

Lemma pathTaken_eq (s : State) :
  files s <> [] ->
  pathTaken E s =
  Some (if makeAnimation s && canMergeAnimation s then MergePath else PerFilePath).
Proof.
  intros Hne. unfold pathTaken.
  destruct (List.length (files s) =? 0)%nat eqn:Hlen.
  - apply length_zero_iff in Hlen. contradiction.
  - unfold tryBlock. simpl.
    change (canMergeAnimation (set_errorMessage "" (set_processing true s)))
      with (canMergeAnimation s).
    destruct (makeAnimation s && canMergeAnimation s); reflexivity.
Qed.

End PathProperties.

(** C1. A run (a call of [convertAndDownload] with at least one input
    item) takes the merge branch exactly when the merge flag is on, the
    target format is GIF or WebP and there are two items or more; in every
    other case it takes the per-file branch. *)
Theorem merge_path_decision (E : Env) (s : State) :
  files s <> [] ->
  let mergeable :=
    makeAnimation s = true /\
    (targetFormat s = Gif \/ targetFormat s = WebP) /\
    (2 <= List.length (files s))%nat in
  (pathTaken E s = Some MergePath <-> mergeable) /\
  (pathTaken E s = Some PerFilePath <-> ~ mergeable).
Proof.
  intros Hne mergeable. subst mergeable.
  rewrite (pathTaken_eq E s Hne), <- canMergeAnimation_iff.
  destruct (makeAnimation s), (canMergeAnimation s); simpl;
    intuition congruence.
Qed.

Lemma merge_path_decision_witness :
  pathTaken Demo.env Demo.threeFramesGif = Some MergePath /\
  pathTaken Demo.env (Demo.loaded [Demo.wide; Demo.square]) = Some PerFilePath.
Proof.
  split.
  - destruct (merge_path_decision Demo.env Demo.threeFramesGif) as [[_ Hmerge] _];
      [evaluate |].
    apply Hmerge. vm_compute. intuition lia.
  - destruct (merge_path_decision Demo.env (Demo.loaded [Demo.wide; Demo.square]))
      as [_ [_ Hfile]]; [evaluate |].
    apply Hfile. vm_compute. intros [H _]. discriminate H.
Defined.

(** ** Failures *)

Lemma failureMessage_cases (e : Error) :
  let codec := occursIn "FailedToExecuteCommand" (message e)
               \/ occursIn "ffmpeg" (message e) in
  let sizes := occursIn "ImagesAreNotTheSameSize" (message e) in
  (codec -> failureMessage e = codecAdvice) /\
  (~ codec -> sizes -> failureMessage e = frameSizeAdvice) /\
  (~ codec -> ~ sizes -> failureMessage e = "Conversion failed. " ++ message e).
Proof.
  intros codec sizes. subst codec sizes. unfold failureMessage.
  rewrite <- !includes_occursIn.
  destruct (Js.includes "FailedToExecuteCommand" (message e)),
           (Js.includes "ffmpeg" (message e)),
           (Js.includes "ImagesAreNotTheSameSize" (message e)); simpl;
    repeat split; intros; try reflexivity;
    repeat match goal with
           | H : _ \/ _ |- _ => destruct H
           | H : ~ _ |- _ => exfalso; apply H; auto; fail
           end; try discriminate; intuition congruence.
Qed.

Lemma failureMessage_nonempty (e : Error) : failureMessage e <> "".
Proof.
  unfold failureMessage.
  destruct (_ || _); [discriminate |].
  destruct (Js.includes _ _); discriminate.
Qed.

Lemma convertAndDownload_throw (E : Env) (s : State) (e : Error) :
  files s <> [] ->
  snd (tryBlock E (started s)) = Throw e ->
  convertAndDownload E s = set_errorMessage (failureMessage e) (started s).
Proof.
  intros Hne Hthrow. unfold convertAndDownload.
  destruct (List.length (files s) =? 0)%nat eqn:Hlen.
  - apply length_zero_iff in Hlen. contradiction.
  - fold (started s). rewrite Hthrow. reflexivity.
Qed.

Lemma convertAndDownload_ok (E : Env) (s : State) (triggered : list Download) :
  files s <> [] ->
  snd (tryBlock E (started s)) = Ok triggered ->
  convertAndDownload E s = set_downloads (downloads s ++ triggered) (started s).
Proof.
  intros Hne Hok. unfold convertAndDownload.
  destruct (List.length (files s) =? 0)%nat eqn:Hlen.
  - apply length_zero_iff in Hlen. contradiction.
  - fold (started s). rewrite Hok. reflexivity.
Qed.

(** C8. When a run fails with exception [e], the message shown is chosen
    by what the exception's message contains: the advice to use GIF or
    WebP when it names a failed external command or ffmpeg; otherwise the
    hint about resize width and height under ratio lock when it names
    frames of unequal size; otherwise the exception's own message,
    unaltered, after the words "Conversion failed. ". *)
Theorem failure_message_by_signature (E : Env) (s : State) (e : Error) :
  files s <> [] ->
  snd (tryBlock E (started s)) = Throw e ->
  let shown := errorMessage (convertAndDownload E s) in
  let codec := occursIn "FailedToExecuteCommand" (message e)
               \/ occursIn "ffmpeg" (message e) in
  let sizes := occursIn "ImagesAreNotTheSameSize" (message e) in
  (codec -> shown = codecAdvice) /\
  (~ codec -> sizes -> shown = frameSizeAdvice) /\
  (~ codec -> ~ sizes -> shown = "Conversion failed. " ++ message e).
Proof.
  intros Hne Hthrow shown. subst shown.
  rewrite (convertAndDownload_throw E s e Hne Hthrow). simpl.
  apply failureMessage_cases.
Qed.

Lemma failure_message_by_signature_witness :
  errorMessage (convertAndDownload Demo.env Demo.threeFramesGif) = frameSizeAdvice /\
  errorMessage (convertAndDownload Demo.env (Demo.loaded [Demo.broken]))
  = "Conversion failed. NoDecodeDelegateForThisImageFormat".
Proof.
  split.
  - destruct (failure_message_by_signature Demo.env Demo.threeFramesGif
                {| message := "ImagesAreNotTheSameSize" |})
      as [_ [Hsizes _]]; [evaluate | evaluate |].
    apply Hsizes.
    + rewrite <- !includes_occursIn. vm_compute. intros [H | H]; discriminate H.
    + rewrite <- includes_occursIn. evaluate.
  - destruct (failure_message_by_signature Demo.env (Demo.loaded [Demo.broken])
                {| message := "NoDecodeDelegateForThisImageFormat" |})
      as [_ [_ Hother]]; [evaluate | evaluate |].
    apply Hother.
    + rewrite <- !includes_occursIn. vm_compute. intros [H | H]; discriminate H.
    + rewrite <- includes_occursIn. evaluate.
Defined.

(** ** The per-file branch *)

Section PerFile.

Variable convert : File.t -> result Blob.
Variable ext : string.

(** The loop fails with the exception of the first item that fails. *)
Lemma convertEach_throw (items : list FileItem.t) :
  (exists item e, In item items /\ convert (FileItem.file item) = Throw e) ->
  forall processed,
  exists before item after e,
    items = (before ++ item :: after)%list /\
    (forall x, In x before -> exists b, converts convert x b) /\
    convert (FileItem.file item) = Throw e /\
    convertEach convert ext items processed = Throw e.
Proof.
  induction items as [|first rest IH]; intros [item [e [Hin Hthrow]]] processed.
  - contradiction.
  - destruct (convert (FileItem.file first)) as [b | e0] eqn:Hfirst.
    + destruct Hin as [-> | Hin]; [congruence |].
      destruct (IH (ex_intro _ item (ex_intro _ e (conj Hin Hthrow)))
                   (processed ++ [(newName ext first, b)])%list)
        as [before [it [after [e' [Hsplit [Hbefore [Hit Hloop]]]]]]].
      exists (first :: before), it, after, e'. repeat split.
      * simpl. congruence.
      * intros x [<- | Hx]; [exists b; assumption | auto].
      * assumption.
      * simpl. rewrite Hfirst. exact Hloop.
    + exists [], first, rest, e0. repeat split.
      * intros x [].
      * assumption.
      * simpl. rewrite Hfirst. reflexivity.
Qed.

(** When the loop completes, every item was converted, and the names and
    blobs stand in [processedFiles] in the order of the items. *)
Lemma convertEach_ok (items : list FileItem.t) :
  forall processed out,
  convertEach convert ext items processed = Ok out ->
  exists blobs,
    Forall2 (converts convert) items blobs /\
    out = (processed ++ combine (map (newName ext) items) blobs)%list.
Proof.
  induction items as [|first rest IH]; intros processed out Hloop; simpl in Hloop.
  - injection Hloop as <-. exists []. split; [constructor | simpl; now rewrite app_nil_r].
  - destruct (convert (FileItem.file first)) as [b | e] eqn:Hfirst; simpl in Hloop;
      [| discriminate].
    destruct (IH _ _ Hloop) as [blobs [Hall ->]].
    exists (b :: blobs). split; [constructor; assumption |].
    simpl. rewrite <- app_assoc. reflexivity.
Qed.

End PerFile.

Lemma editFrames_started (E : Env) (s : State) (collection : list Image.t) :
  editFrames E (started s) collection = editFrames E s collection.
Proof.
  induction collection as [|image rest IH]; [reflexivity |].
  cbn [editFrames]. rewrite IH. reflexivity.
Qed.

Lemma processSingleImage_started (E : Env) (s : State) (f : File.t) :
  processSingleImage E (started s) f = processSingleImage E s f.
Proof.
  unfold processSingleImage.
  destruct (readCollection E (File.bytes f)) as [sizes|]; [| reflexivity].
  cbn [bind]. destruct (coalesce E _) as [coalesced|]; [| reflexivity].
  cbn [bind]. rewrite editFrames_started. reflexivity.
Qed.

Lemma processSingleImage_blob (E : Env) (s : State) (f : File.t) (b : Blob) :
  processSingleImage E s f = Ok b -> exists data, b = ImageBlob data (targetFormat s).
Proof.
  unfold processSingleImage.
  destruct (readCollection E (File.bytes f)) as [sizes|]; simpl; [| discriminate].
  destruct (coalesce E _) as [coalesced|]; simpl; [| discriminate].
  destruct (editFrames E s coalesced) as [edited|]; simpl; [| discriminate].
  destruct (isMultiFrameFormat s).
  - destruct (if format_eqb (targetFormat s) Gif then _ else _) as [frames|];
      simpl; [| discriminate].
    destruct (writeCollection E _ frames) as [data|]; simpl; [| discriminate].
    intros H. injection H as <-. exists data. reflexivity.
  - destruct edited as [|firstFrame rest]; [discriminate |].
    destruct (writeImage E _ firstFrame) as [data|]; simpl; [| discriminate].
    intros H. injection H as <-. exists data. reflexivity.
Qed.

Lemma AppVue_processSingleImage_blob (E : Env) (s : State) (f : File.t) (b : Blob) :
  AppVue.processSingleImage E s f = Ok b -> exists data, b = ImageBlob data (targetFormat s).
Proof.
  unfold AppVue.processSingleImage.
  destruct (readImage E (File.bytes f)) as [size|]; simpl; [| discriminate].
  destruct (applyEdits E s _) as [edited|]; simpl; [| discriminate].
  destruct (writeImage E _ _) as [data|]; simpl; [| discriminate].
  intros H. injection H as <-. exists data. reflexivity.
Qed.

Lemma pathTaken_perFile (E : Env) (s : State) :
  pathTaken E s = Some PerFilePath ->
  files s <> [] /\
  tryBlock E (started s)
  = (PerFilePath,
     perFile E (processSingleImage E s) s (resolveExtension (targetFormat s))).
Proof.
  intros Hpath.
  assert (Hne : files s <> []).
  { intros Hnil. unfold pathTaken in Hpath. rewrite Hnil in Hpath. discriminate. }
  split; [assumption |].
  rewrite (pathTaken_eq E s Hne) in Hpath.
  unfold tryBlock.
  change (makeAnimation (started s) && canMergeAnimation (started s))
    with (makeAnimation s && canMergeAnimation s).
  destruct (makeAnimation s && canMergeAnimation s); [discriminate |].
  change (targetFormat (started s)) with (targetFormat s).
  f_equal. unfold perFile.
  change (files (started s)) with (files s).
  assert (Hloop : forall items processed,
             convertEach (processSingleImage E (started s))
               (resolveExtension (targetFormat s)) items processed
             = convertEach (processSingleImage E s)
                 (resolveExtension (targetFormat s)) items processed).
  { induction items as [|item rest IH]; intros processed; [reflexivity |].
    cbn [convertEach]. rewrite processSingleImage_started.
    destruct (processSingleImage E s (FileItem.file item)); [| reflexivity].
    cbn [bind]. apply IH. }
  rewrite Hloop. reflexivity.
Qed.

(** C4. In a per-file run in which the conversion of some item raises,
    nothing is handed to [triggerDownload], neither a file nor an archive,
    although the items before the first failing one had been converted;
    the message shown is the one message chosen for the exception of that
    first failing item. *)
Theorem per_file_failure_delivers_nothing (E : Env) (s : State) :
  pathTaken E s = Some PerFilePath ->
  (exists item e,
      In item (files s) /\ processSingleImage E s (FileItem.file item) = Throw e) ->
  delivered E s = [] /\
  downloads (convertAndDownload E s) = downloads s /\
  exists before item after e,
    files s = (before ++ item :: after)%list /\
    (forall x, In x before ->
       exists b, processSingleImage E s (FileItem.file x) = Ok b) /\
    processSingleImage E s (FileItem.file item) = Throw e /\
    errorMessage (convertAndDownload E s) = failureMessage e /\
    errorMessage (convertAndDownload E s) <> "".
Proof.
  intros Hpath Hfails.
  destruct (pathTaken_perFile E s Hpath) as [Hne Htry].
  destruct (convertEach_throw (processSingleImage E s)
              (resolveExtension (targetFormat s)) (files s) Hfails [])
    as [before [item [after [e [Hsplit [Hbefore [Hitem Hloop]]]]]]].
  assert (Hthrow : snd (tryBlock E (started s)) = Throw e).
  { rewrite Htry. simpl. unfold perFile.
    change (files (started s)) with (files s). rewrite Hloop. reflexivity. }
  assert (Hrun := convertAndDownload_throw E s e Hne Hthrow).
  split; [| split].
  - unfold delivered. rewrite Hrun. simpl. apply skipn_all.
  - rewrite Hrun. reflexivity.
  - exists before, item, after, e. rewrite Hrun. simpl.
    repeat split; try assumption. apply failureMessage_nonempty.
Qed.

Lemma per_file_failure_delivers_nothing_witness :
  delivered Demo.env (Demo.loaded [Demo.wide; Demo.broken; Demo.square]) = [] /\
  errorMessage (convertAndDownload Demo.env (Demo.loaded [Demo.wide; Demo.broken; Demo.square]))
  <> "".
Proof.
  destruct (per_file_failure_delivers_nothing Demo.env
              (Demo.loaded [Demo.wide; Demo.broken; Demo.square]))
    as [Hnone [_ [before [item [after [e [_ [_ [_ [_ Hshown]]]]]]]]]].
  - evaluate.
  - exists (Demo.item 1 Demo.broken),
      {| message := "NoDecodeDelegateForThisImageFormat" |}.
    split; [vm_compute; tauto | evaluate].
  - split; assumption.
Defined.

(** ** Packaging *)

Lemma perFile_packaged (E : Env) (convert : File.t -> result Blob) (s : State)
    (triggered : list Download) :
  files s <> [] ->
  (forall f b, convert f = Ok b -> exists data, b = ImageBlob data (targetFormat s)) ->
  perFile E convert s (resolveExtension (targetFormat s)) = Ok triggered ->
  packaged E convert s triggered.
Proof.
  intros Hne Himage Hrun. unfold perFile in Hrun. unfold packaged.
  destruct (convertEach convert _ (files s) []) as [processed|] eqn:Hloop;
    simpl in Hrun; [| discriminate].
  destruct (convertEach_ok convert _ _ _ _ Hloop) as [blobs [Hall Hprocessed]].
  simpl in Hprocessed. subst processed.
  assert (Hbundle : zipOutput s || (1 <? List.length (files s))%nat = true
                    <-> zipOutput s = true \/ (1 < List.length (files s))%nat).
  { rewrite orb_true_iff, Nat.ltb_lt. reflexivity. }
  unfold deliver in Hrun.
  destruct (zipOutput s || (1 <? List.length (files s))%nat) eqn:Hflag.
  - (* the archive *)
    fold (zipEntries (combine (map (newName (resolveExtension (targetFormat s)))
                                   (files s)) blobs)) in Hrun.
    destruct (generateAsync E _) as [content|] eqn:Hzip; simpl in Hrun; [| discriminate].
    injection Hrun as <-.
    assert (Hyes : zipOutput s = true \/ (1 < List.length (files s))%nat)
      by (apply Hbundle; reflexivity).
    repeat split.
    + intros _. exists blobs, content. auto.
    + intros Hno. contradiction.
    + intros _. assumption.
    + intros _. exists content. reflexivity.
  - (* the single file *)
    assert (Hno : ~ (zipOutput s = true \/ (1 < List.length (files s))%nat)).
    { intros H. apply Hbundle in H. discriminate. }
    destruct (files s) as [|item [|second rest]] eqn:Hfiles;
      [congruence | | exfalso; apply Hno; right; simpl; lia].
    inversion Hall as [|? b ? rest Hitem Hrest]; subst.
    inversion Hrest; subst. simpl in Hrun. injection Hrun as <-.
    destruct (Himage _ _ Hitem) as [data ->].
    repeat split.
    + intros Hyes. contradiction.
    + intros _. exists item, data. auto.
    + intros [content H]. discriminate H.
    + intros Hyes. contradiction.
Qed.

(** C5. A per-file run that completes hands over one archive named
    "converted_images.zip" exactly when the zip flag is set or more than
    one item was processed, and otherwise the converted image of its only
    item under the derived name; in the merge-capable component and in
    [src/App.vue] alike. *)
Theorem packaging_decision (E : Env) (s : State) (triggered : list Download) :
  (pathTaken E s = Some PerFilePath ->
   snd (tryBlock E (started s)) = Ok triggered ->
   delivered E s = triggered /\ packaged E (processSingleImage E s) s triggered)
  /\
  (files s <> [] ->
   AppVue.tryBlock E s = Ok triggered ->
   AppVue.delivered E s = triggered
   /\ packaged E (AppVue.processSingleImage E s) s triggered).
Proof.
  split.
  - intros Hpath Hok.
    destruct (pathTaken_perFile E s Hpath) as [Hne Htry].
    split.
    + unfold delivered. rewrite (convertAndDownload_ok E s triggered Hne Hok).
      simpl. rewrite skipn_app, skipn_all, Nat.sub_diag. reflexivity.
    + rewrite Htry in Hok. simpl in Hok.
      apply perFile_packaged; try assumption.
      intros f b. apply processSingleImage_blob.
  - intros Hne Hok. split.
    + unfold AppVue.delivered, AppVue.convertAndDownload.
      destruct (List.length (files s) =? 0)%nat eqn:Hlen;
        [apply length_zero_iff in Hlen; contradiction |].
      fold (started s).
      replace (AppVue.tryBlock E (started s)) with (AppVue.tryBlock E s)
        by reflexivity.
      rewrite Hok. simpl. rewrite skipn_app, skipn_all, Nat.sub_diag. reflexivity.
    + apply perFile_packaged; try assumption.
      intros f b. apply AppVue_processSingleImage_blob.
Qed.

Lemma packaging_decision_witness :
  (exists content,
      delivered Demo.env (Demo.loaded [Demo.wide; Demo.square])
      = [ {| blob := ArchiveBlob content; filename := "converted_images.zip" |} ]) /\
  (exists item data,
      files (Demo.loaded [Demo.wide]) = [item] /\
      AppVue.delivered Demo.env (Demo.loaded [Demo.wide])
      = [ {| blob := ImageBlob data Png; filename := "wide.png" |} ]).
Proof.
  split.
  - destruct (packaging_decision Demo.env (Demo.loaded [Demo.wide; Demo.square])
                (delivered Demo.env (Demo.loaded [Demo.wide; Demo.square])))
      as [Hmain _].
    destruct Hmain as [_ [_ [_ Harchive]]]; [evaluate | evaluate |].
    apply Harchive. right. vm_compute. lia.
  - destruct (packaging_decision Demo.env (Demo.loaded [Demo.wide])
                (AppVue.delivered Demo.env (Demo.loaded [Demo.wide])))
      as [_ Hearlier].
    destruct Hearlier as [_ [_ [Hsingle _]]]; [evaluate | evaluate |].
    destruct Hsingle as [item [data [Hfiles [_ Htriggered]]]].
    + vm_compute. intros [H | H]; [discriminate H | lia].
    + exists item, data. split; [assumption |].
      rewrite Htriggered. vm_compute in Hfiles. injection Hfiles as <-.
      evaluate.
Defined.

(** ** Edits *)







(** Every frame of a decoded file goes through [applyEdits], in order. *)
Lemma editFrames_every_frame (E : Env) (s : State) (collection out : list Image.t) :
  editFrames E s collection = Ok out ->
  Forall2 (fun image done =>
             exists e, applyEdits E s image = Ok e /\
                       done = Image.set_quality (quality s)
                                (Image.set_format (targetFormat s) e))
          collection out.
Proof.
  revert out. induction collection as [|image rest IH]; intros out Hrun; simpl in Hrun.
  - injection Hrun as <-. constructor.
  - unfold editFrame in Hrun.
    destruct (applyEdits E s image) as [e|] eqn:Hedit; simpl in Hrun; [| discriminate].
    destruct (editFrames E s rest) as [done|]; simpl in Hrun; [| discriminate].
    injection Hrun as <-. constructor; [exists e; auto | apply IH; reflexivity].
Qed.

(** ** Merged animations *)

(** What an engine call leaves untouched on the image. *)
Lemma after_keeps (c : EngineCall) (size : Z * Z) (im : Image.t) :
  Image.source (Image.after c size im) = Image.source im /\
  Image.backgroundColor (Image.after c size im) = Image.backgroundColor im /\
  Image.animationDelay (Image.after c size im) = Image.animationDelay im /\
  Image.gifDisposeMethod (Image.after c size im) = Image.gifDisposeMethod im.
Proof. repeat split. Qed.


Lemma padsCanvas_iff (s : State) :
  padsCanvas s = true <->
  targetFormat s = Gif /\ resizeMode s = ModePixels /\
  Js.truthy (resizeWidth s) = true /\ Js.truthy (resizeHeight s) = true /\
  lockRatio s = true.
Proof.
  unfold padsCanvas. rewrite !andb_true_iff.
  destruct (format_eqb_spec (targetFormat s) Gif), (resizeMode s);
    intuition congruence.
Qed.









(** ** Ingestion *)

Lemma isImage_iff (f : File.t) :
  isImage f = true <-> exists rest, File.type f = "image/" ++ rest.
Proof. unfold isImage, Js.startsWith. apply prefix_append. Qed.

Lemma withPreviews_files (E : Env) (validFiles : list File.t) :
  forall n, map FileItem.file (withPreviews E n validFiles) = validFiles.
Proof.
  induction validFiles as [|f rest IH]; intros n; simpl; [reflexivity |].
  rewrite IH. reflexivity.
Qed.

Lemma filter_twice {A} (p : A -> bool) (l : list A) :
  filter p (filter p l) = filter p l.
Proof.
  induction l as [|a l IH]; simpl; [reflexivity |].
  destruct (p a) eqn:Hp; simpl; [rewrite Hp, IH; reflexivity | exact IH].
Qed.

(** The message for more than five rejected names. *)
Lemma rejectionMessage_many (names : list string) :
  (5 < List.length names)%nat ->
  rejectionMessage names
  = "Skipped unsupported files: " ++ Js.join ", " (firstn 5 names)
    ++ ", and " ++ Js.showZ (Z.of_nat (List.length names) - 5) ++ " others.".
Proof.
  intros Hmany. unfold rejectionMessage, Js.slice0.
  destruct (Nat.ltb_spec 0 (List.length names)); [| lia].
  destruct (Z.ltb_spec 0 (Z.of_nat (List.length names) - 5)); [reflexivity | lia].
Qed.

(** C9. [addFiles] appends the entries whose declared type begins with
    "image/", in their order and whatever else was selected with them, and
    rejects the others; with more than five rejected, the message lists
    the first five rejected names and ends in ", and N others." for the N
    remaining ones.  Seven rejected entries and one image: one file
    accepted, five names listed, then ", and 2 others.". *)
Theorem addFiles_accepts_images (E : Env) (fileList : list File.t) (s : State) :
  let after := addFiles E fileList s in
  let rejected := rejectedNamesOf fileList in
  (forall f, isImage f = true <-> exists rest, File.type f = "image/" ++ rest) /\
  map FileItem.file (files after)
  = (map FileItem.file (files s) ++ filter isImage fileList)%list /\
  files after = files (addFiles E (filter isImage fileList) s) /\
  ((5 < List.length rejected)%nat ->
     errorMessage after
     = "Skipped unsupported files: " ++ Js.join ", " (firstn 5 rejected)
       ++ ", and " ++ Js.showZ (Z.of_nat (List.length rejected) - 5) ++ " others.") /\
  (List.length rejected = 7%nat ->
   List.length (filter isImage fileList) = 1%nat ->
   List.length (files after) = (List.length (files s) + 1)%nat /\
   exists n1 n2 n3 n4 n5 n6 n7,
     rejected = [n1; n2; n3; n4; n5; n6; n7] /\
     errorMessage after
     = "Skipped unsupported files: "
       ++ n1 ++ ", " ++ n2 ++ ", " ++ n3 ++ ", " ++ n4 ++ ", " ++ n5
       ++ ", and 2 others.").
Proof.
  intros after rejected. subst after rejected.
  split; [exact isImage_iff | split; [| split; [| split]]].
  - unfold addFiles. simpl. rewrite map_app, withPreviews_files. reflexivity.
  - unfold addFiles. simpl. rewrite filter_twice. reflexivity.
  - intros Hmany. unfold addFiles. simpl. apply rejectionMessage_many. exact Hmany.
  - intros Hseven Hone. split.
    + unfold addFiles. simpl.
      rewrite length_app, <- (length_map FileItem.file (withPreviews _ _ _)),
        withPreviews_files, Hone. reflexivity.
    + unfold addFiles. simpl. fold (rejectedNamesOf fileList).
      destruct (rejectedNamesOf fileList)
        as [|n1 [|n2 [|n3 [|n4 [|n5 [|n6 [|n7 [|n8 more]]]]]]]]; try discriminate.
      exists n1, n2, n3, n4, n5, n6, n7. split; [reflexivity |].
      unfold rejectionMessage. simpl.
      repeat (rewrite append_assoc; simpl). reflexivity.
Qed.

Lemma addFiles_accepts_images_witness :
  List.length (files (addFiles Demo.env Demo.selection initial)) = 1%nat /\
  errorMessage (addFiles Demo.env Demo.selection initial)
  = "Skipped unsupported files: notes1.txt, notes2.txt, notes3.txt, notes4.txt, notes5.txt, and 2 others.".
Proof.
  destruct (addFiles_accepts_images Demo.env Demo.selection initial)
    as [_ [_ [_ [_ Hseven]]]].
  destruct Hseven as [Hcount [n1 [n2 [n3 [n4 [n5 [n6 [n7 [Hnames Hmessage]]]]]]]]];
    [evaluate | evaluate |].
  split; [exact Hcount |].
  rewrite Hmessage. vm_compute in Hnames.
  injection Hnames as <- <- <- <- <- <- <-. evaluate.
Defined.

(** ** The watchers and the ratio lock *)

Lemma value_eqb_spec (a b : Js.value) : reflect (a = b) (Js.value_eqb a b).
Proof.
  destruct a, b; simpl; try (constructor; congruence).
  destruct (Z.eqb_spec z z0); constructor; congruence.
Qed.

Lemma value_eqb_refl (a : Js.value) : Js.value_eqb a a = true.
Proof. destruct (value_eqb_spec a a); congruence. Qed.

Lemma sameBox_refl (s : State) : sameBox s s.
Proof. repeat split. Qed.

Lemma sameBox_trans (a b c : State) : sameBox a b -> sameBox b c -> sameBox a c.
Proof. unfold sameBox. intuition congruence. Qed.

Lemma onTargetFormat_box (s : State) : sameBox (onTargetFormat s) s.
Proof. unfold onTargetFormat. destruct (negb _); repeat split. Qed.

Lemma onFilesLength_box (n : nat) (s : State) : sameBox (onFilesLength n s) s.
Proof.
  unfold onFilesLength.
  destruct ((1 <? n)%nat && negb (makeAnimation s)), (n <? 2)%nat; repeat split.
Qed.

(** The first two watchers leave the box alone; the third releases the
    lock when the box changed into one with both sides set, in mode
    Pixels. *)
Lemma flush_box (before after : State) :
  resizeMode (flush before after) = resizeMode after /\
  resizeWidth (flush before after) = resizeWidth after /\
  resizeHeight (flush before after) = resizeHeight after /\
  lockRatio (flush before after)
  = lockAfter (resizeWidth before) (resizeHeight before)
              (resizeWidth after) (resizeHeight after) after.
Proof.
  unfold flush.
  set (s1 := if format_eqb (targetFormat before) (targetFormat after) then after
             else onTargetFormat after).
  assert (H1 : sameBox s1 after).
  { subst s1. destruct (format_eqb _ _); [apply sameBox_refl | apply onTargetFormat_box]. }
  set (s2 := if (List.length (files before) =? List.length (files s1))%nat then s1
             else onFilesLength (List.length (files s1)) s1).
  assert (H2 : sameBox s2 after).
  { apply (sameBox_trans _ s1); [| exact H1].
    subst s2. destruct (_ =? _)%nat; [apply sameBox_refl | apply onFilesLength_box]. }
  destruct H2 as [Hmode [Hw [Hh Hlock]]].
  unfold lockAfter, onResizeBox, isPixels. rewrite Hw, Hh.
  destruct (Js.value_eqb (resizeWidth before) (resizeWidth after)
            && Js.value_eqb (resizeHeight before) (resizeHeight after)).
  - auto.
  - rewrite Hmode.
    destruct (Js.truthy (resizeWidth after) && Js.truthy (resizeHeight after)
              && match resizeMode after with ModePixels => true | _ => false end);
      simpl; auto.
Qed.

Lemma convertAndDownload_box (E : Env) (s : State) : sameBox (convertAndDownload E s) s.
Proof.
  unfold convertAndDownload.
  destruct (List.length (files s) =? 0)%nat; [apply sameBox_refl |].
  destruct (snd (tryBlock E _)); repeat split.
Qed.

(** The resize box after one step of the machine. *)
Lemma fire_box (E : Env) (e : Event) (s : State) :
  resizeWidth (fire E e s)
  = match e with SetResizeWidth v => v | _ => resizeWidth s end /\
  resizeHeight (fire E e s)
  = match e with SetResizeHeight v => v | _ => resizeHeight s end /\
  lockRatio (fire E e s)
  = match e with
    | ToggleLockRatio => negb (lockRatio s)
    | SetResizeWidth v =>
        lockAfter (resizeWidth s) (resizeHeight s) v (resizeHeight s) s
    | SetResizeHeight v =>
        lockAfter (resizeWidth s) (resizeHeight s) (resizeWidth s) v s
    | _ => lockRatio s
    end.
Proof.
  unfold fire.
  destruct (flush_box s (handle E e s)) as [_ [Hw [Hh Hlock]]].
  rewrite Hw, Hh, Hlock. clear Hw Hh Hlock.
  assert (Hkeep : forall after, sameBox after s ->
            resizeWidth after = resizeWidth s /\
            resizeHeight after = resizeHeight s /\
            lockAfter (resizeWidth s) (resizeHeight s)
                      (resizeWidth after) (resizeHeight after) after
            = lockRatio s).
  { intros after [_ [Hw [Hh Hlock]]]. unfold lockAfter.
    rewrite Hw, Hh, !value_eqb_refl. auto. }
  destruct e; simpl;
    try (apply Hkeep; repeat split; fail);
    try (unfold lockAfter; simpl; rewrite !value_eqb_refl; auto; fail).
  apply Hkeep. apply convertAndDownload_box.
Qed.

Lemma replay_run (E : Env) (events : list Event) :
  forall s s', replay E events s = Some s' -> run E events s s'.
Proof.
  induction events as [|e rest IH] using rev_ind; intros s s' Hreplay.
  - injection Hreplay as <-. constructor.
  - assert (Hsplit : forall evs s0,
              replay E (evs ++ [e]) s0
              = match replay E evs s0 with
                | Some mid => if enabled e mid then Some (fire E e mid) else None
                | None => None
                end).
    { induction evs as [|x evs IHevs]; intros s0; simpl.
      - destruct (enabled e s0); reflexivity.
      - destruct (enabled x s0); [apply IHevs | reflexivity]. }
    rewrite Hsplit in Hreplay.
    destruct (replay E rest s) as [mid|] eqn:Hmid; [| discriminate].
    destruct (enabled e mid) eqn:Hen; [| discriminate].
    injection Hreplay as <-. constructor; [apply IH; assumption | assumption].
Qed.

(** Only the two inputs of the box change it, and the template shows them
    in mode Pixels only. *)
Lemma box_changes_in_pixels (E : Env) (e : Event) (s : State) :
  enabled e s = true ->
  (resizeWidth (fire E e s), resizeHeight (fire E e s))
  <> (resizeWidth s, resizeHeight s) ->
  resizeMode s = ModePixels.
Proof.
  intros Hen Hchanged.
  destruct (fire_box E e s) as [Ew [Eh _]]. rewrite Ew, Eh in Hchanged.
  destruct e; try (exfalso; apply Hchanged; reflexivity);
    simpl in Hen; apply andb_true_iff in Hen; destruct Hen as [Hpixels _];
    unfold isPixels in Hpixels; destruct (resizeMode s); congruence.
Qed.

(** A step in mode Pixels that changes the box into one with both sides
    set leaves the ratio unlocked. *)
Lemma fire_releases_lock (E : Env) (e : Event) (s : State) :
  resizeMode s = ModePixels ->
  (resizeWidth (fire E e s), resizeHeight (fire E e s))
  <> (resizeWidth s, resizeHeight s) ->
  Js.truthy (resizeWidth (fire E e s)) = true ->
  Js.truthy (resizeHeight (fire E e s)) = true ->
  lockRatio (fire E e s) = false.
Proof.
  intros Hmode Hchanged Hw Hh.
  destruct (fire_box E e s) as [Ew [Eh El]].
  rewrite Ew, Eh in Hchanged. rewrite Ew in Hw. rewrite Eh in Hh. rewrite El.
  destruct e; try (exfalso; apply Hchanged; reflexivity);
    unfold lockAfter, isPixels; rewrite Hw, Hh, Hmode; simpl.
  - rewrite value_eqb_refl, andb_true_r.
    destruct (value_eqb_spec (resizeWidth s) v) as [<- | _]; [| reflexivity].
    exfalso. apply Hchanged. reflexivity.
  - rewrite value_eqb_refl. simpl.
    destruct (value_eqb_spec (resizeHeight s) v) as [<- | _]; [| reflexivity].
    exfalso. apply Hchanged. reflexivity.
Qed.

(** Along a run that starts with the box empty, the lock is on over a full
    box only after a click on the lock made when the box already had its
    present sides. *)
Lemma locked_box_was_clicked (E : Env) (events : list Event) (s0 s : State) :
  run E events s0 s ->
  Js.truthy (resizeWidth s0) && Js.truthy (resizeHeight s0) = false ->
  Js.truthy (resizeWidth s) = true ->
  Js.truthy (resizeHeight s) = true ->
  lockRatio s = true ->
  exists before after mid,
    events = (before ++ ToggleLockRatio :: after)%list /\
    run E before s0 mid /\
    enabled ToggleLockRatio mid = true /\
    lockRatio mid = false /\
    resizeWidth mid = resizeWidth s /\
    resizeHeight mid = resizeHeight s.
Proof.
  intros Hrun Hempty.
  induction Hrun as [s0 | events e s0 s' Hrun IH Hen]; intros Hw Hh Hlock.
  - rewrite Hw, Hh in Hempty. discriminate.
  - specialize (IH Hempty).
    destruct (fire_box E e s') as [Ew [Eh El]].
    assert (Hstay : resizeWidth (fire E e s') = resizeWidth s' ->
                    resizeHeight (fire E e s') = resizeHeight s' ->
                    lockRatio (fire E e s') = lockRatio s' ->
                    exists before after mid,
                      (events ++ [e])%list = (before ++ ToggleLockRatio :: after)%list /\
                      run E before s0 mid /\
                      enabled ToggleLockRatio mid = true /\
                      lockRatio mid = false /\
                      resizeWidth mid = resizeWidth (fire E e s') /\
                      resizeHeight mid = resizeHeight (fire E e s')).
    { intros Sw Sh Sl. rewrite Sw in Hw. rewrite Sh in Hh. rewrite Sl in Hlock.
      destruct (IH Hw Hh Hlock) as [before [after [mid [-> [Hmid [Hclick [Hoff [Mw Mh]]]]]]]].
      exists before, (after ++ [e])%list, mid.
      rewrite <- app_assoc. simpl. repeat split; try assumption; congruence. }
    destruct (value_eqb_spec (resizeWidth (fire E e s')) (resizeWidth s')) as [Sw | Cw];
      [destruct (value_eqb_spec (resizeHeight (fire E e s')) (resizeHeight s'))
         as [Sh | Ch] |].
    + (* the box did not change *)
      destruct e; try (apply Hstay; [exact Sw | exact Sh | rewrite El; reflexivity]).
      * (* width typed again *)
        apply Hstay; [exact Sw | exact Sh |].
        rewrite El. unfold lockAfter. rewrite Ew in Sw. subst v.
        rewrite !value_eqb_refl. reflexivity.
      * (* height typed again *)
        apply Hstay; [exact Sw | exact Sh |].
        rewrite El. unfold lockAfter. rewrite Eh in Sh. subst v.
        rewrite !value_eqb_refl. reflexivity.
      * (* the click on the lock *)
        exists events, [], s'. rewrite El in Hlock.
        repeat split; try assumption; try congruence.
        destruct (lockRatio s'); [discriminate | reflexivity].
    + exfalso.
      assert (Hchanged : (resizeWidth (fire E e s'), resizeHeight (fire E e s'))
                         <> (resizeWidth s', resizeHeight s'))
        by (intros Heq; injection Heq as _ Heq; contradiction).
      assert (Hoff := fire_releases_lock E e s'
                        (box_changes_in_pixels E e s' Hen Hchanged) Hchanged Hw Hh).
      congruence.
    + exfalso.
      assert (Hchanged : (resizeWidth (fire E e s'), resizeHeight (fire E e s'))
                         <> (resizeWidth s', resizeHeight s'))
        by (intros Heq; injection Heq as Heq _; contradiction).
      assert (Hoff := fire_releases_lock E e s'
                        (box_changes_in_pixels E e s' Hen Hchanged) Hchanged Hw Hh).
      congruence.
Qed.

(** C10. Whenever a step changes the box while the mode is Pixels and
    leaves both sides set, the watcher sets [lockRatio] to false; so, on
    any run of the component from its initial state, the box is full and
    locked in mode Pixels (the part of the canvas-padding guard that does
    not depend on the target) only after the user clicked the lock, from
    off to on, at a moment when both sides already had their present
    values. *)
Theorem lock_released_when_box_full (E : Env) :
  (forall e s,
     resizeMode s = ModePixels ->
     (resizeWidth (fire E e s), resizeHeight (fire E e s))
     <> (resizeWidth s, resizeHeight s) ->
     Js.truthy (resizeWidth (fire E e s)) = true ->
     Js.truthy (resizeHeight (fire E e s)) = true ->
     lockRatio (fire E e s) = false) /\
  (forall events s,
     run E events initial s ->
     boxLocked s ->
     exists before after mid,
       events = (before ++ ToggleLockRatio :: after)%list /\
       run E before initial mid /\
       enabled ToggleLockRatio mid = true /\
       lockRatio mid = false /\
       resizeWidth mid = resizeWidth s /\
       resizeHeight mid = resizeHeight s) /\
  (forall s, padsCanvas s = true -> boxLocked s).
Proof.
  split; [| split].
  - intros e s. apply fire_releases_lock.
  - intros events s Hrun [_ [Hw [Hh Hlock]]].
    apply (locked_box_was_clicked E events initial s Hrun); auto.
  - intros s Hpads. apply padsCanvas_iff in Hpads. unfold boxLocked. tauto.
Qed.

Lemma lock_released_when_box_full_witness :
  lockRatio (fire Demo.env (SetResizeHeight (Js.Num 64))
               (fire Demo.env (SetResizeWidth (Js.Num 64))
                  (fire Demo.env (SetResizeMode ModePixels) initial))) = false /\
  exists before after,
    Demo.boxedEvents = (before ++ ToggleLockRatio :: after)%list.
Proof.
  destruct (lock_released_when_box_full Demo.env) as [Hstep [Hrun _]].
  split.
  - apply Hstep; evaluate.
  - destruct (Hrun Demo.boxedEvents Demo.threeFramesBoxed)
      as [before [after [mid [Hsplit _]]]].
    + apply replay_run. evaluate.
    + vm_compute. tauto.
    + exists before, after. exact Hsplit.
Defined.

(** * Further properties of the code *)

(** ** File names *)

Lemma allChars_append (p : ascii -> bool) (a b : string) :
  Js.allChars p (a ++ b) = Js.allChars p a && Js.allChars p b.
Proof.
  induction a as [|c a IH]; simpl; [reflexivity |].
  rewrite IH, andb_assoc. reflexivity.
Qed.

Lemma stripExtension_base (base ext : string) :
  cleanExtension ext = true ->
  Js.stripExtension (base ++ "." ++ ext) = base.
Proof.
  unfold cleanExtension. intros Hclean. apply andb_true_iff in Hclean.
  destruct Hclean as [Hne Hchars].
  induction base as [|c base IH]; simpl in *.
  - rewrite Hne, Hchars. reflexivity.
  - rewrite IH.
    replace (Js.allChars Js.notSlashDot (base ++ String "." ext)) with false.
    + rewrite !andb_false_r. reflexivity.
    + rewrite allChars_append. simpl. rewrite andb_false_r. reflexivity.
Qed.

Lemma stripExtension_dotless (s : string) :
  dotless s = true -> Js.stripExtension s = s.
Proof.
  unfold dotless. induction s as [|c s IH]; simpl; [reflexivity |].
  intros H. apply andb_true_iff in H. destruct H as [Hc Hs].
  apply negb_true_iff in Hc. rewrite Hc, IH by assumption. reflexivity.
Qed.

Lemma stripExtension_cut (s : string) :
  exists suffix,
    s = Js.stripExtension s ++ suffix /\
    (suffix = "" \/ exists ext, suffix = "." ++ ext /\ cleanExtension ext = true).
Proof.
  induction s as [|c s [suffix [Hcut Hsuffix]]]; simpl.
  - exists "". auto.
  - destruct (Ascii.eqb_spec c ".") as [-> | Hc]; simpl.
    + destruct (Js.nonEmpty s && Js.allChars Js.notSlashDot s) eqn:Hclean.
      * exists (String "." s). split; [reflexivity |]. right. exists s. auto.
      * exists suffix. split; [simpl; congruence | assumption].
    + exists suffix. split; [simpl; congruence | assumption].
Qed.

(** X1. [stripExtension] takes off the last extension and nothing else:
    a name made of a base, a dot and an extension that is not empty and
    has no dot or slash gives back the base; a name without a dot is
    returned whole; and in every case what is cut off is either nothing or
    a dot followed by such an extension. *)
Theorem stripExtension_last_extension (s : string) :
  (forall base ext, cleanExtension ext = true -> s = base ++ "." ++ ext ->
     Js.stripExtension s = base) /\
  (dotless s = true -> Js.stripExtension s = s) /\
  (exists suffix,
     s = Js.stripExtension s ++ suffix /\
     (suffix = "" \/ exists ext, suffix = "." ++ ext /\ cleanExtension ext = true)).
Proof.
  split; [| split].
  - intros base ext Hclean ->. apply stripExtension_base. exact Hclean.
  - apply stripExtension_dotless.
  - apply stripExtension_cut.
Qed.

Lemma stripExtension_last_extension_witness :
  Js.stripExtension "holiday.2024.jpeg" = "holiday.2024" /\
  Js.stripExtension "README" = "README".
Proof.
  split.
  - destruct (stripExtension_last_extension "holiday.2024.jpeg") as [Hbase _].
    apply (Hbase "holiday.2024" "jpeg"); evaluate.
  - destruct (stripExtension_last_extension "README") as [_ [Hwhole _]].
    apply Hwhole. evaluate.
Defined.

Lemma resolveExtension_clean (f : MagickFormat) :
  cleanExtension (resolveExtension f) = true.
Proof. destruct f; reflexivity. Qed.

(** X2. The derived name ends in the resolved extension, and deriving is
    stable: stripping the derived name gives the stripped original name,
    so a file that already carries its derived name keeps it when
    converted again to the same format. *)
Theorem newName_stable (f : MagickFormat) (item : FileItem.t) :
  let ext := resolveExtension f in
  Js.stripExtension (newName ext item)
  = Js.stripExtension (File.name (FileItem.file item)) /\
  newName ext (renamed (newName ext item) item) = newName ext item.
Proof.
  intros ext. subst ext.
  assert (Hstrip : Js.stripExtension (newName (resolveExtension f) item)
                   = Js.stripExtension (File.name (FileItem.file item))).
  { unfold newName. apply stripExtension_base. apply resolveExtension_clean. }
  split; [exact Hstrip |].
  unfold newName at 1. simpl. rewrite Hstrip. reflexivity.
Qed.

(** ** The format tables *)

(** X3. Distinct formats of the two tables resolve to distinct
    extensions, only formats outside the tables share one ("dat"), and no
    format resolves to "jpeg". *)
Theorem resolveExtension_injective (f g : MagickFormat) :
  resolveExtension f <> "jpeg" /\
  (resolveExtension f = resolveExtension g ->
   f = g \/ ((exists n, f = OtherFormat n) /\ (exists m, g = OtherFormat m))).
Proof.
  split.
  - destruct f; discriminate.
  - destruct f, g; simpl; intros H;
      try (left; reflexivity); try discriminate H.
    right. eauto.
Qed.

Lemma resolveExtension_injective_witness :
  Tiff = Tiff \/ ((exists n, Tiff = OtherFormat n) /\ (exists m, Tiff = OtherFormat m)).
Proof.
  destruct (resolveExtension_injective Tiff Tiff) as [_ H]. apply H. reflexivity.
Defined.

(** X4. Every format that can be merged into an animation is a
    multi-frame format; PDF and TIFF are multi-frame and can never be
    merged, however many files are selected. *)
Theorem mergeable_is_multiFrame (s : State) :
  (canMergeAnimation s = true -> isMultiFrameFormat s = true) /\
  (targetFormat s = Pdf \/ targetFormat s = Tiff ->
   isMultiFrameFormat s = true /\ canMergeAnimation s = false).
Proof.
  split.
  - intros Hmerge. apply canMergeAnimation_iff in Hmerge.
    destruct Hmerge as [[Hf | Hf] _]; unfold isMultiFrameFormat; rewrite Hf; reflexivity.
  - unfold isMultiFrameFormat, canMergeAnimation.
    intros [Hf | Hf]; rewrite Hf; destruct (_ <? _)%nat; split; reflexivity.
Qed.

Lemma mergeable_is_multiFrame_witness :
  isMultiFrameFormat Demo.threeFramesGif = true.
Proof.
  destruct (mergeable_is_multiFrame Demo.threeFramesGif) as [H _].
  apply H. evaluate.
Defined.

(** X5. The "more formats" label exists exactly when a format of the
    second table is selected; it is then the key whose lower case is the
    extension, and the format is not in the first table. *)
Theorem moreLabel_when_selected (s : State) :
  (isMoreSelected s = true <-> exists label, currentMoreLabel s = Some label) /\
  (forall label, currentMoreLabel s = Some label ->
     resolveExtension (targetFormat s) = Js.toLowerCase label /\
     findKey quickFormats (targetFormat s) = None).
Proof.
  unfold isMoreSelected, currentMoreLabel.
  destruct (targetFormat s); simpl; split;
    try (split; [discriminate | intros [label H]; discriminate H]);
    try (intros label H; discriminate H);
    try (split; [intros _; eexists; reflexivity | reflexivity]);
    try (intros label H; injection H as <-; split; reflexivity).
Qed.

Lemma moreLabel_when_selected_witness :
  resolveExtension (targetFormat (set_targetFormat Tga initial)) = "tga".
Proof.
  destruct (moreLabel_when_selected (set_targetFormat Tga initial)) as [_ H].
  destruct (H "TGA") as [Hext _]; [reflexivity | exact Hext].
Defined.

(** ** The archive *)

Lemma zipFile_entryOf (name : string) (b : Blob) (entries : list (string * Blob))
    (n : string) :
  entryOf n (zipFile name b entries)
  = if String.eqb name n then Some b else entryOf n entries.
Proof.
  unfold entryOf. induction entries as [|[m old] rest IH]; simpl.
  - destruct (String.eqb name n); reflexivity.
  - destruct (String.eqb_spec m name) as [-> | Hm]; simpl.
    + destruct (String.eqb name n); reflexivity.
    + destruct (String.eqb_spec m n) as [-> | Hn]; simpl.
      * destruct (String.eqb_spec name n); [congruence | reflexivity].
      * exact IH.
Qed.

Lemma zipFile_names (name : string) (b : Blob) (entries : list (string * Blob)) :
  (In name (map fst entries) ->
   map fst (zipFile name b entries) = map fst entries) /\
  (~ In name (map fst entries) ->
   zipFile name b entries = (entries ++ [(name, b)])%list).
Proof.
  induction entries as [|[m old] rest [IHin IHout]]; simpl.
  - split; [contradiction | reflexivity].
  - destruct (String.eqb_spec m name) as [-> | Hm]; simpl.
    + split; [reflexivity | intros H; exfalso; apply H; left; reflexivity].
    + split.
      * intros [H | H]; [congruence | rewrite (IHin H); reflexivity].
      * intros H. rewrite IHout; [reflexivity | intros Hin; apply H; right; exact Hin].
Qed.

Lemma zipFile_NoDup (name : string) (b : Blob) (entries : list (string * Blob)) :
  NoDup (map fst entries) -> NoDup (map fst (zipFile name b entries)).
Proof.
  intros Hnodup. destruct (zipFile_names name b entries) as [Hin Hout].
  destruct (in_dec string_dec name (map fst entries)) as [H | H].
  - rewrite (Hin H). exact Hnodup.
  - rewrite (Hout H), map_app. simpl.
    apply NoDup_app; [exact Hnodup | constructor; [intros [] | constructor] |].
    intros x Hx [<- | []]. contradiction.
Qed.

Lemma entryOf_app (n : string) (a b : list (string * Blob)) :
  entryOf n (a ++ b)%list
  = match entryOf n a with Some x => Some x | None => entryOf n b end.
Proof.
  unfold entryOf. induction a as [|[m x] a IH]; simpl; [reflexivity |].
  destruct (String.eqb m n); [reflexivity | exact IH].
Qed.

Lemma zip_fold (processed : list (string * Blob)) :
  forall zip,
  NoDup (map fst zip) ->
  let filled := fold_left (fun z f => zipFile (fst f) (snd f) z) processed zip in
  NoDup (map fst filled) /\
  (List.length filled <= List.length zip + List.length processed)%nat /\
  (forall n, entryOf n filled
             = match entryOf n (rev processed) with
               | Some b => Some b
               | None => entryOf n zip
               end) /\
  (NoDup (map fst (zip ++ processed)%list) -> filled = (zip ++ processed)%list).
Proof.
  induction processed as [|[name b] rest IH]; intros zip Hnodup; simpl.
  - rewrite app_nil_r. repeat split; auto. lia.
  - destruct (IH (zipFile name b zip) (zipFile_NoDup name b zip Hnodup))
      as [Hnd [Hlen [Hlook Hfresh]]].
    split; [exact Hnd | split; [| split]].
    + assert (List.length (zipFile name b zip) <= S (List.length zip))%nat.
      { destruct (zipFile_names name b zip) as [Hin Hout].
        destruct (in_dec string_dec name (map fst zip)) as [H | H].
        - rewrite <- (length_map fst), (Hin H), length_map. lia.
        - rewrite (Hout H), length_app. simpl. lia. }
      lia.
    + intros n. rewrite Hlook, entryOf_app, zipFile_entryOf.
      destruct (entryOf n (rev rest)); [reflexivity |].
      unfold entryOf. simpl.
      destruct (String.eqb name n); reflexivity.
    + intros Hall. rewrite map_app in Hall. simpl in Hall.
      assert (Hnew : ~ In name (map fst zip)).
      { intros Hin. apply NoDup_remove_2 in Hall. apply Hall.
        apply in_or_app. left. exact Hin. }
      destruct (zipFile_names name b zip) as [_ Hout].
      rewrite (Hout Hnew) in Hfresh |- *.
      rewrite <- app_assoc in Hfresh. simpl in Hfresh. apply Hfresh.
      rewrite map_app. simpl. exact Hall.
Qed.

(** X6. The archive holds one entry per distinct derived name: no name
    twice, never more entries than converted items, and under each name
    the blob of the last item that was given that name; when the derived
    names are all different the entries are the converted items, in
    order. *)
Theorem zipEntries_last_write_wins (processedFiles : list (string * Blob)) :
  NoDup (map fst (zipEntries processedFiles)) /\
  (List.length (zipEntries processedFiles) <= List.length processedFiles)%nat /\
  (forall name, entryOf name (zipEntries processedFiles)
                = entryOf name (rev processedFiles)) /\
  (NoDup (map fst processedFiles) -> zipEntries processedFiles = processedFiles).
Proof.
  destruct (zip_fold processedFiles [] (NoDup_nil _)) as [Hnd [Hlen [Hlook Hfresh]]].
  split; [exact Hnd | split; [exact Hlen | split; [| exact Hfresh]]].
  intros name. unfold zipEntries. rewrite Hlook.
  destruct (entryOf name (rev processedFiles)); reflexivity.
Qed.

Lemma zipEntries_last_write_wins_witness :
  zipEntries [("a.png", ArchiveBlob []); ("b.png", ArchiveBlob [])]
  = [("a.png", ArchiveBlob []); ("b.png", ArchiveBlob [])].
Proof.
  destruct (zipEntries_last_write_wins
              [("a.png", ArchiveBlob []); ("b.png", ArchiveBlob [])])
    as [_ [_ [_ Hfresh]]].
  apply Hfresh. repeat constructor; simpl; intuition discriminate.
Defined.

(** ** Runs *)

Lemma deliver_single (E : Env) (s : State) (n : nat) (processed : list (string * Blob))
    (triggered : list Download) :
  deliver E s n processed = Ok triggered -> exists d, triggered = [d].
Proof.
  unfold deliver. destruct (zipOutput s || (1 <? n)%nat).
  - destruct (generateAsync E _); simpl; [| discriminate].
    intros H. injection H as <-. eauto.
  - destruct processed; [discriminate |].
    intros H. injection H as <-. eauto.
Qed.

Lemma tryBlock_single (E : Env) (s : State) (triggered : list Download) :
  snd (tryBlock E s) = Ok triggered -> exists d, triggered = [d].
Proof.
  unfold tryBlock. destruct (makeAnimation s && canMergeAnimation s); simpl.
  - destruct (processMergeAnimation E s); simpl; [| discriminate].
    intros H. injection H as <-. eauto.
  - unfold perFile. destruct (convertEach _ _ _ _); simpl; [| discriminate].
    apply deliver_single.
Qed.

(** X7. A run over at least one file ends in exactly one of two ways:
    one download is triggered and the message is empty, or no download is
    triggered and a message is shown; the downloads made before are kept,
    [processing] is set, and the files and the edit settings are as
    before. *)
Theorem run_delivers_or_reports (E : Env) (s : State) :
  files s <> [] ->
  let s' := convertAndDownload E s in
  ((exists d, delivered E s = [d] /\ downloads s' = (downloads s ++ [d])%list
              /\ errorMessage s' = "")
   \/ (delivered E s = [] /\ downloads s' = downloads s /\ errorMessage s' <> "")) /\
  processing s' = true /\
  files s' = files s /\ targetFormat s' = targetFormat s /\
  makeAnimation s' = makeAnimation s /\ zipOutput s' = zipOutput s /\
  rotation s' = rotation s /\ sameBox s' s.
Proof.
  intros Hne s'. subst s'.
  destruct (snd (tryBlock E (started s))) as [triggered | e] eqn:Hrun.
  - destruct (tryBlock_single E _ _ Hrun) as [d ->].
    unfold delivered. rewrite (convertAndDownload_ok E s [d] Hne Hrun). simpl.
    split; [left; exists d | repeat split].
    rewrite skipn_app, skipn_all, Nat.sub_diag. auto.
  - unfold delivered. rewrite (convertAndDownload_throw E s e Hne Hrun). simpl.
    split; [right | repeat split].
    rewrite skipn_all. repeat split. apply failureMessage_nonempty.
Qed.

Lemma run_delivers_or_reports_witness :
  processing (convertAndDownload Demo.env (Demo.loaded [Demo.wide])) = true.
Proof.
  destruct (run_delivers_or_reports Demo.env (Demo.loaded [Demo.wide])) as [_ [H _]];
    [evaluate | exact H].
Defined.

(** ** The merge branch *)

Lemma mergeFrames_started (E : Env) (s : State) (items : list FileItem.t) :
  forall collection,
  mergeFrames E (started s) items collection = mergeFrames E s items collection.
Proof.
  induction items as [|item rest IH]; intros collection; [reflexivity |].
  cbn [mergeFrames].
  change (mergeFrame E (started s) (FileItem.file item))
    with (mergeFrame E s (FileItem.file item)).
  destruct (mergeFrame E s (FileItem.file item)); [| reflexivity].
  cbn [bind]. apply IH.
Qed.

Lemma pathTaken_merge (E : Env) (s : State) :
  pathTaken E s = Some MergePath ->
  files s <> [] /\
  (targetFormat s = Gif \/ targetFormat s = WebP) /\
  snd (tryBlock E (started s))
  = (b <- (collection <- mergeFrames E s (files s) [] ;;
           collection <- (if format_eqb (targetFormat s) Gif
                          then optimize E collection else Ok collection) ;;
           data <- writeCollection E (targetFormat s) collection ;;
           Ok (ImageBlob data (targetFormat s))) ;;
     Ok [ {| blob := b;
             filename := "animation." ++ resolveExtension (targetFormat s) |} ]).
Proof.
  intros Hpath.
  assert (Hne : files s <> []).
  { intros Hnil. unfold pathTaken in Hpath. rewrite Hnil in Hpath. discriminate. }
  rewrite (pathTaken_eq E s Hne) in Hpath.
  destruct (makeAnimation s && canMergeAnimation s) eqn:Hflag; [| discriminate].
  assert (Hmerge : canMergeAnimation s = true)
    by (apply andb_true_iff in Hflag; tauto).
  apply canMergeAnimation_iff in Hmerge.
  split; [exact Hne | split; [tauto |]].
  unfold tryBlock.
  change (makeAnimation (started s) && canMergeAnimation (started s))
    with (makeAnimation s && canMergeAnimation s).
  rewrite Hflag. simpl. unfold processMergeAnimation.
  change (files (started s)) with (files s).
  rewrite mergeFrames_started. reflexivity.
Qed.

Lemma mergeFrames_throw (E : Env) (s : State) (items : list FileItem.t) :
  (exists item e, In item items /\ mergeFrame E s (FileItem.file item) = Throw e) ->
  forall collection,
  exists before item after e,
    items = (before ++ item :: after)%list /\
    (forall x, In x before -> exists frame, framed E s x frame) /\
    mergeFrame E s (FileItem.file item) = Throw e /\
    mergeFrames E s items collection = Throw e.
Proof.
  induction items as [|first rest IH]; intros [item [e [Hin Hthrow]]] collection.
  - contradiction.
  - destruct (mergeFrame E s (FileItem.file first)) as [frame | e0] eqn:Hfirst.
    + destruct Hin as [-> | Hin]; [congruence |].
      destruct (IH (ex_intro _ item (ex_intro _ e (conj Hin Hthrow)))
                   (collection ++ [frame])%list)
        as [before [it [after [e' [Hsplit [Hbefore [Hit Hloop]]]]]]].
      exists (first :: before), it, after, e'. repeat split.
      * simpl. congruence.
      * intros x [<- | Hx]; [exists frame; assumption | auto].
      * assumption.
      * simpl. rewrite Hfirst. exact Hloop.
    + exists [], first, rest, e0. repeat split.
      * intros x [].
      * assumption.
      * simpl. rewrite Hfirst. reflexivity.
Qed.

(** X8. A merge run that completes triggers one download, an image blob
    in the target format named "animation.gif" or "animation.webp"
    according to the target, whatever the zip flag says. *)
Theorem merge_run_output (E : Env) (s : State) (triggered : list Download) :
  pathTaken E s = Some MergePath ->
  snd (tryBlock E (started s)) = Ok triggered ->
  delivered E s = triggered /\
  exists data,
    triggered = [ {| blob := ImageBlob data (targetFormat s);
                     filename := if format_eqb (targetFormat s) Gif
                                 then "animation.gif" else "animation.webp" |} ].
Proof.
  intros Hpath Hrun.
  destruct (pathTaken_merge E s Hpath) as [Hne [Hformat Htry]].
  split.
  - unfold delivered. rewrite (convertAndDownload_ok E s triggered Hne Hrun).
    simpl. rewrite skipn_app, skipn_all, Nat.sub_diag. reflexivity.
  - rewrite Htry in Hrun.
    destruct (mergeFrames E s (files s) []) as [collection|]; simpl in Hrun;
      [| discriminate].
    destruct (if format_eqb (targetFormat s) Gif then _ else _) as [frames|];
      simpl in Hrun; [| discriminate].
    destruct (writeCollection E _ frames) as [data|]; simpl in Hrun; [| discriminate].
    injection Hrun as <-. exists data.
    destruct Hformat as [-> | ->]; reflexivity.
Qed.

Lemma merge_run_output_witness :
  exists data,
    delivered Demo.env Demo.threeFramesBoxed
    = [ {| blob := ImageBlob data Gif; filename := "animation.gif" |} ].
Proof.
  destruct (merge_run_output Demo.env Demo.threeFramesBoxed
              (delivered Demo.env Demo.threeFramesBoxed))
    as [_ [data Hout]]; [evaluate | evaluate |].
  exists data. rewrite Hout. evaluate.
Defined.

(** X9. A merge run in which some input does not yield a frame triggers
    no download; the inputs before the first such one had yielded their
    frames, and the message shown is the one chosen for its exception. *)
Theorem merge_failure_delivers_nothing (E : Env) (s : State) :
  pathTaken E s = Some MergePath ->
  (exists item e, In item (files s) /\ mergeFrame E s (FileItem.file item) = Throw e) ->
  delivered E s = [] /\
  downloads (convertAndDownload E s) = downloads s /\
  exists before item after e,
    files s = (before ++ item :: after)%list /\
    (forall x, In x before -> exists frame, framed E s x frame) /\
    mergeFrame E s (FileItem.file item) = Throw e /\
    errorMessage (convertAndDownload E s) = failureMessage e.
Proof.
  intros Hpath Hfails.
  destruct (pathTaken_merge E s Hpath) as [Hne [_ Htry]].
  destruct (mergeFrames_throw E s (files s) Hfails [])
    as [before [item [after [e [Hsplit [Hbefore [Hitem Hloop]]]]]]].
  assert (Hthrow : snd (tryBlock E (started s)) = Throw e).
  { rewrite Htry, Hloop. reflexivity. }
  assert (Hrun := convertAndDownload_throw E s e Hne Hthrow).
  split; [| split].
  - unfold delivered. rewrite Hrun. simpl. apply skipn_all.
  - rewrite Hrun. reflexivity.
  - exists before, item, after, e. rewrite Hrun. simpl. auto.
Qed.

Lemma merge_failure_delivers_nothing_witness :
  delivered Demo.env Demo.brokenMerge = [] /\
  errorMessage (convertAndDownload Demo.env Demo.brokenMerge)
  = "Conversion failed. NoDecodeDelegateForThisImageFormat".
Proof.
  destruct (merge_failure_delivers_nothing Demo.env Demo.brokenMerge)
    as [Hnone [_ [before [item [after [e [Hsplit [_ [Hitem Hshown]]]]]]]]].
  - evaluate.
  - exists (Demo.item 1 Demo.broken),
      {| message := "NoDecodeDelegateForThisImageFormat" |}.
    split; [vm_compute; tauto | evaluate].
  - split; [exact Hnone | evaluate].
Defined.






(** ** The earlier component *)

(** X12. In [src/App.vue] a run in which the conversion of some item
    raises triggers no download, and the message shown is always
    "Conversion failed. " followed by the message of the exception of the
    first failing item: this component gives no advice by kind of
    failure. *)
Theorem AppVue_failure_message (E : Env) (s : State) :
  files s <> [] ->
  (exists item e,
      In item (files s) /\ AppVue.processSingleImage E s (FileItem.file item) = Throw e) ->
  AppVue.delivered E s = [] /\
  exists before item after e,
    files s = (before ++ item :: after)%list /\
    (forall x, In x before ->
       exists b, AppVue.processSingleImage E s (FileItem.file x) = Ok b) /\
    AppVue.processSingleImage E s (FileItem.file item) = Throw e /\
    errorMessage (AppVue.convertAndDownload E s) = "Conversion failed. " ++ message e.
Proof.
  intros Hne Hfails.
  destruct (convertEach_throw (AppVue.processSingleImage E s)
              (resolveExtension (targetFormat s)) (files s) Hfails [])
    as [before [item [after [e [Hsplit [Hbefore [Hitem Hloop]]]]]]].
  assert (Hrun : AppVue.convertAndDownload E s
                 = set_errorMessage ("Conversion failed. " ++ message e) (started s)).
  { unfold AppVue.convertAndDownload.
    destruct (List.length (files s) =? 0)%nat eqn:Hlen;
      [apply length_zero_iff in Hlen; contradiction |].
    fold (started s).
    replace (AppVue.tryBlock E (started s)) with (AppVue.tryBlock E s) by reflexivity.
    unfold AppVue.tryBlock, perFile. rewrite Hloop. reflexivity. }
  split.
  - unfold AppVue.delivered. rewrite Hrun. simpl. apply skipn_all.
  - exists before, item, after, e. rewrite Hrun. simpl. auto.
Qed.

Lemma AppVue_failure_message_witness :
  errorMessage (AppVue.convertAndDownload Demo.env (Demo.loaded [Demo.wide; Demo.broken]))
  = "Conversion failed. NoDecodeDelegateForThisImageFormat".
Proof.
  destruct (AppVue_failure_message Demo.env (Demo.loaded [Demo.wide; Demo.broken]))
    as [_ [before [item [after [e [_ [_ [_ Hshown]]]]]]]].
  - evaluate.
  - exists (Demo.item 1 Demo.broken),
      {| message := "NoDecodeDelegateForThisImageFormat" |}.
    split; [vm_compute; tauto | evaluate].
  - evaluate.
Defined.

(** ** Ingestion, small selections *)

Lemma withPreviews_fresh (E : Env) (validFiles : list File.t) :
  forall n, Forall (fun item => FileItem.renderError item = false)
                   (withPreviews E n validFiles).
Proof.
  induction validFiles as [|f rest IH]; intros n; simpl; constructor; auto.
Qed.

(** X13. When nothing is rejected [addFiles] clears the message, also a
    message left by a failed run; with one to five rejected entries the
    message lists all of them and ends in a full stop.  In every case the
    new entries come after the old ones, none of them marked with a
    preview error, and one identifier is drawn per accepted file. *)
Theorem addFiles_few_rejected (E : Env) (fileList : list File.t) (s : State) :
  let after := addFiles E fileList s in
  let rejected := rejectedNamesOf fileList in
  (rejected = [] -> errorMessage after = "") /\
  ((0 < List.length rejected <= 5)%nat ->
   errorMessage after
   = "Skipped unsupported files: " ++ Js.join ", " rejected ++ ".") /\
  (exists added,
     files after = (files s ++ added)%list /\
     Forall (fun item => FileItem.renderError item = false) added) /\
  draws after = (draws s + List.length (filter isImage fileList))%nat.
Proof.
  intros after rejected. subst after rejected.
  unfold addFiles. simpl. fold (rejectedNamesOf fileList).
  split; [| split; [| split]].
  - intros ->. reflexivity.
  - intros [Hsome Hfew]. unfold rejectionMessage, Js.slice0.
    destruct (Nat.ltb_spec 0 (List.length (rejectedNamesOf fileList))); [| lia].
    destruct (Z.ltb_spec 0 (Z.of_nat (List.length (rejectedNamesOf fileList)) - 5));
      [lia |].
    rewrite firstn_all2 by lia. reflexivity.
  - eexists. split; [reflexivity | apply withPreviews_fresh].
  - reflexivity.
Qed.

Lemma addFiles_few_rejected_witness :
  errorMessage (addFiles Demo.env Demo.pair initial)
  = "Skipped unsupported files: notes1.txt.".
Proof.
  destruct (addFiles_few_rejected Demo.env Demo.pair initial) as [_ [Hfew _]].
  rewrite Hfew; [evaluate | vm_compute; lia].
Defined.

(** ** What a conversion of one file writes *)

Lemma editFrames_stamped (E : Env) (s : State) (collection out : list Image.t) :
  editFrames E s collection = Ok out ->
  List.length out = List.length collection /\
  Forall (fun frame => Image.format frame = Some (targetFormat s)
                       /\ Image.quality frame = Some (quality s)) out.
Proof.
  intros Hrun. apply editFrames_every_frame in Hrun.
  induction Hrun as [|image done rest out [e [_ ->]] _ [IHlen IHall]].
  - split; constructor.
  - split; [simpl; congruence | constructor; auto].
Qed.

(** X14. When [processSingleImage] returns a blob, every decoded frame
    was edited and given the target format and the quality; for a
    multi-frame target all of them are written (after [optimize] for GIF),
    for any other target only the first one is, the edits of the others
    being lost. *)
Theorem processSingleImage_output (E : Env) (s : State) (f : File.t) (b : Blob) :
  processSingleImage E s f = Ok b ->
  exists sizes coalesced frames,
    readCollection E (File.bytes f) = Ok sizes /\
    coalesce E (map (Image.fresh (File.bytes f)) sizes) = Ok coalesced /\
    editFrames E s coalesced = Ok frames /\
    List.length frames = List.length coalesced /\
    Forall (fun frame => Image.format frame = Some (targetFormat s)
                         /\ Image.quality frame = Some (quality s)) frames /\
    (isMultiFrameFormat s = true ->
       exists written data,
         (if format_eqb (targetFormat s) Gif then optimize E frames else Ok frames)
         = Ok written /\
         writeCollection E (targetFormat s) written = Ok data /\
         b = ImageBlob data (targetFormat s)) /\
    (isMultiFrameFormat s = false ->
       exists first rest data,
         frames = first :: rest /\
         writeImage E (targetFormat s) first = Ok data /\
         b = ImageBlob data (targetFormat s)).
Proof.
  unfold processSingleImage.
  destruct (readCollection E (File.bytes f)) as [sizes|]; simpl; [| discriminate].
  destruct (coalesce E _) as [coalesced|] eqn:Hcoalesce; simpl; [| discriminate].
  destruct (editFrames E s coalesced) as [frames|] eqn:Hedit; simpl; [| discriminate].
  destruct (editFrames_stamped E s _ _ Hedit) as [Hlen Hall].
  intros Hrun. exists sizes, coalesced, frames.
  split; [reflexivity | split; [exact Hcoalesce | split; [exact Hedit |]]].
  split; [exact Hlen | split; [exact Hall |]].
  destruct (isMultiFrameFormat s).
  - split; [intros _ | discriminate].
    destruct (if format_eqb (targetFormat s) Gif then _ else _) as [written|];
      simpl in Hrun; [| discriminate].
    destruct (writeCollection E _ written) as [data|] eqn:Hwrite; simpl in Hrun;
      [| discriminate].
    injection Hrun as <-. exists written, data. auto.
  - split; [discriminate | intros _].
    destruct frames as [|first rest]; [discriminate |].
    destruct (writeImage E _ first) as [data|] eqn:Hwrite; simpl in Hrun;
      [| discriminate].
    injection Hrun as <-. exists first, rest, data. auto.
Qed.

Lemma processSingleImage_output_witness :
  exists sizes, readCollection Demo.env (File.bytes Demo.wide) = Ok sizes.
Proof.
  destruct (processSingleImage_output Demo.env (Demo.loaded [Demo.wide]) Demo.wide
              (ImageBlob (File.bytes Demo.wide) Png))
    as [sizes [_ [_ [Hread _]]]]; [evaluate |].
  exists sizes. exact Hread.
Defined.

(** ** The component as a state machine *)

Lemma keeps_refl (s : State) : keeps s s.
Proof. unfold keeps. tauto. Qed.

Lemma keeps_trans (a b c : State) : keeps a b -> keeps b c -> keeps a c.
Proof. unfold keeps. intuition congruence. Qed.

Lemma onTargetFormat_keeps (s : State) : keeps (onTargetFormat s) s.
Proof.
  unfold onTargetFormat, keeps. destruct (negb _); simpl; intuition discriminate.
Qed.

Lemma onFilesLength_keeps (n : nat) (s : State) : keeps (onFilesLength n s) s.
Proof.
  unfold onFilesLength, keeps.
  destruct ((1 <? n)%nat && negb (makeAnimation s)), (n <? 2)%nat; simpl;
    intuition discriminate.
Qed.

Lemma onResizeBox_keeps (w h : Js.value) (s : State) : keeps (onResizeBox w h s) s.
Proof.
  unfold onResizeBox, keeps. destruct (_ && _); simpl; tauto.
Qed.

(** The watchers touch [makeAnimation], [zipOutput] and [lockRatio] only,
    and leave merging on only when it is still possible. *)
Lemma flush_keeps (before after : State) :
  keeps (flush before after) after /\
  (makeAnimation (flush before after) = true ->
   (targetFormat before = targetFormat after \/ canMergeAnimation after = true) /\
   (List.length (files before) = List.length (files after)
    \/ (2 <= List.length (files after))%nat)).
Proof.
  unfold flush.
  set (s1 := if format_eqb (targetFormat before) (targetFormat after) then after
             else onTargetFormat after).
  assert (H1 : keeps s1 after /\
               (makeAnimation s1 = true ->
                targetFormat before = targetFormat after
                \/ canMergeAnimation after = true)).
  { subst s1. destruct (format_eqb_spec (targetFormat before) (targetFormat after)).
    - split; [apply keeps_refl | auto].
    - split; [apply onTargetFormat_keeps |].
      unfold onTargetFormat. destruct (canMergeAnimation after); simpl; auto;
        discriminate. }
  destruct H1 as [K1 M1].
  set (s2 := if (List.length (files before) =? List.length (files s1))%nat then s1
             else onFilesLength (List.length (files s1)) s1).
  assert (H2 : keeps s2 s1 /\
               (makeAnimation s2 = true ->
                List.length (files before) = List.length (files s1)
                \/ (2 <= List.length (files s1))%nat)).
  { subst s2. destruct (Nat.eqb_spec (List.length (files before))
                                     (List.length (files s1))).
    - split; [apply keeps_refl | auto].
    - split; [apply onFilesLength_keeps |].
      unfold onFilesLength.
      destruct (Nat.ltb_spec (List.length (files s1)) 2); simpl; [discriminate |].
      intros _. right. assumption. }
  destruct H2 as [K2 M2].
  assert (K3 : keeps (if Js.value_eqb (resizeWidth before) (resizeWidth s2)
                         && Js.value_eqb (resizeHeight before) (resizeHeight s2)
                      then s2
                      else onResizeBox (resizeWidth s2) (resizeHeight s2) s2) s2).
  { destruct (_ && _); [apply keeps_refl | apply onResizeBox_keeps]. }
  split.
  - apply (keeps_trans _ s2); [exact K3 |].
    apply (keeps_trans _ s1); assumption.
  - intros Hon.
    assert (Hon2 : makeAnimation s2 = true) by (apply K3; exact Hon).
    assert (Hon1 : makeAnimation s1 = true) by (apply K2; exact Hon2).
    destruct K1 as [Hfiles _]. rewrite Hfiles in M2. auto.
Qed.

Lemma convertAndDownload_settings (E : Env) (s : State) :
  files (convertAndDownload E s) = files s /\
  targetFormat (convertAndDownload E s) = targetFormat s /\
  makeAnimation (convertAndDownload E s) = makeAnimation s /\
  rotation (convertAndDownload E s) = rotation s /\
  isReady (convertAndDownload E s) = isReady s /\
  processing (convertAndDownload E s)
  = (if (List.length (files s) =? 0)%nat then processing s else true).
Proof.
  unfold convertAndDownload.
  destruct (List.length (files s) =? 0)%nat; [repeat split |].
  destruct (snd (tryBlock E _)); repeat split.
Qed.

(** The fields of the state after one step that the watchers leave
    alone. *)
Lemma fire_settings (E : Env) (e : Event) (s : State) :
  rotation (fire E e s)
  = match e with
    | RotateLeft => Z.rem (rotation s - 90) 360
    | RotateRight => Z.rem (rotation s + 90) 360
    | _ => rotation s
    end /\
  isReady (fire E e s) = match e with EngineLoaded => true | _ => isReady s end /\
  processing (fire E e s)
  = match e with
    | TimerFired => false
    | Convert => if (List.length (files s) =? 0)%nat then processing s else true
    | _ => processing s
    end /\
  (e <> Convert -> downloads (fire E e s) = downloads s).
Proof.
  unfold fire.
  destruct (flush_keeps s (handle E e s)) as [[_ [_ [Hr [Hp [Hi [Hd _]]]]]] _].
  rewrite Hr, Hp, Hi, Hd.
  destruct (convertAndDownload_settings E s) as [_ [_ [_ [Cr [Ci Cp]]]]].
  destruct e; simpl; repeat split; auto; congruence.
Qed.

Lemma canMergeAnimation_agree (a b : State) :
  List.length (files a) = List.length (files b) ->
  targetFormat a = targetFormat b ->
  canMergeAnimation a = canMergeAnimation b.
Proof. unfold canMergeAnimation. intros -> ->. reflexivity. Qed.

(** One step keeps "merging on only if merging possible". *)
Lemma fire_merge_possible (E : Env) (e : Event) (s : State) :
  enabled e s = true ->
  (makeAnimation s = true -> canMergeAnimation s = true) ->
  makeAnimation (fire E e s) = true -> canMergeAnimation (fire E e s) = true.
Proof.
  intros Hen Hinv Hon. unfold fire in *.
  destruct (flush_keeps s (handle E e s)) as [[Hfiles [Hformat [_ [_ [_ [_ [_ Hmake]]]]]]] Hwatch].
  specialize (Hwatch Hon). specialize (Hmake Hon).
  rewrite (canMergeAnimation_agree _ (handle E e s)
             (f_equal (@List.length _) Hfiles) Hformat).
  destruct Hwatch as [Hsame Hcount].
  assert (Hcases :
            (List.length (files (handle E e s)) = List.length (files s)
             /\ targetFormat (handle E e s) = targetFormat s
             /\ (makeAnimation s = true \/ canMergeAnimation s = true))
            \/ (targetFormat (handle E e s) = targetFormat s
                /\ makeAnimation (handle E e s) = makeAnimation s)
            \/ (files (handle E e s) = files s
                /\ makeAnimation (handle E e s) = makeAnimation s)).
  { destruct (convertAndDownload_settings E s) as [Cf [Ct [Cm _]]].
    destruct e; simpl in *;
      try (left; repeat split; auto; fail);
      try (right; left; split; reflexivity);
      try (right; right; split; reflexivity).
    left. rewrite Cf, Ct. repeat split. left. congruence. }
  destruct Hcases as [[Hl [Ht Hs]] | [[Ht Hm] | [Hf Hm]]].
  - rewrite (canMergeAnimation_agree _ s Hl Ht). destruct Hs; auto.
  - (* the files changed *)
    rewrite Hm in Hmake. specialize (Hinv Hmake).
    apply canMergeAnimation_iff in Hinv. destruct Hinv as [Hfmt Hlen].
    apply canMergeAnimation_iff. rewrite Ht. split; [exact Hfmt |].
    destruct Hcount as [Heq | Hge]; [rewrite <- Heq; exact Hlen | exact Hge].
  - (* the target changed *)
    rewrite Hm in Hmake. specialize (Hinv Hmake).
    destruct Hsame as [Heq | Hcan]; [| exact Hcan].
    rewrite <- Hinv. apply canMergeAnimation_agree; [rewrite Hf; reflexivity | auto].
Qed.

(** X15. In every state the component reaches from its initial state,
    merging is switched on only while merging is possible (GIF or WebP
    selected and two files or more); so a run there takes the merge branch
    exactly when the merge flag is on. *)
Theorem merge_flag_only_when_possible (E : Env) (events : list Event) (s : State) :
  run E events initial s ->
  (makeAnimation s = true -> canMergeAnimation s = true) /\
  (files s <> [] ->
   (pathTaken E s = Some MergePath <-> makeAnimation s = true)).
Proof.
  intros Hrun.
  assert (Hinv : makeAnimation s = true -> canMergeAnimation s = true).
  { remember initial as s0 eqn:Hs0.
    induction Hrun as [s0 | events e s0 s' Hrun IH Hen].
    - subst s0. discriminate.
    - apply fire_merge_possible; auto. }
  split; [exact Hinv |].
  intros Hne. rewrite (pathTaken_eq E s Hne).
  destruct (makeAnimation s); simpl.
  - rewrite Hinv by reflexivity. tauto.
  - split; discriminate.
Qed.

Lemma merge_flag_only_when_possible_witness :
  canMergeAnimation Demo.threeFramesBoxed = true.
Proof.
  destruct (merge_flag_only_when_possible Demo.env Demo.boxedEvents
              Demo.threeFramesBoxed) as [H _].
  - apply replay_run. evaluate.
  - apply H. evaluate.
Defined.

Lemma rem_quarter (r : Z) (d : Z) :
  quarterTurns r -> (d = 90 \/ d = -90) ->
  -360 < Z.rem (r + d) 360 < 360 /\ quarterTurns (Z.rem (r + d) 360).
Proof.
  intros [k ->] Hd. split.
  - pose proof (Z.rem_bound_abs (90 * k + d) 360 ltac:(lia)). lia.
  - rewrite Z.rem_eq by lia.
    exists (k + d / 90 - 4 * Z.quot (90 * k + d) 360).
    destruct Hd as [-> | ->]; [change (90 / 90) with 1 | change (-90 / 90) with (-1)]; lia.
Qed.

Lemma rem_mod_360 (a : Z) : (Z.rem a 360) mod 360 = a mod 360.
Proof.
  rewrite Z.rem_eq by lia.
  replace (a - 360 * Z.quot a 360) with (a + (- Z.quot a 360) * 360) by lia.
  apply Z.mod_add. lia.
Qed.

(** X16. The rotation reached by the two rotate buttons is always a whole
    number of quarter turns strictly between -360 and 360 degrees (it can
    be negative); and a turn to the left after a turn to the right, or the
    other way round, gives the same angle modulo 360. *)
Theorem rotation_bounded (E : Env) :
  (forall events s,
     run E events initial s ->
     -360 < rotation s < 360 /\ quarterTurns (rotation s)) /\
  (forall s,
     (rotation (rotateLeft (rotateRight s))) mod 360 = (rotation s) mod 360 /\
     (rotation (rotateRight (rotateLeft s))) mod 360 = (rotation s) mod 360).
Proof.
  split.
  - intros events s Hrun. remember initial as s0 eqn:Hs0.
    induction Hrun as [s0 | events e s0 s' Hrun IH Hen].
    + subst s0. simpl. split; [lia | exists 0; reflexivity].
    + specialize (IH Hs0). destruct IH as [Hbound Hquarter].
      destruct (fire_settings E e s') as [Hr _]. rewrite Hr.
      destruct e; try (split; assumption).
      * replace (rotation s' - 90) with (rotation s' + -90) by lia.
        apply rem_quarter; auto.
      * apply rem_quarter; auto.
  - intros s. unfold rotateLeft, rotateRight. simpl. split.
    + rewrite rem_mod_360, Zminus_mod, rem_mod_360, <- Zminus_mod.
      f_equal. lia.
    + rewrite rem_mod_360, Zplus_mod, rem_mod_360, <- Zplus_mod.
      f_equal. lia.
Qed.

Lemma rotation_bounded_witness :
  rotation (fire Demo.env RotateLeft initial) = -90 /\
  -360 < rotation (fire Demo.env RotateLeft initial) < 360.
Proof.
  destruct (rotation_bounded Demo.env) as [Hrun _].
  destruct (Hrun [RotateLeft] (fire Demo.env RotateLeft initial)) as [Hbound _].
  - apply replay_run. evaluate.
  - split; [evaluate | exact Hbound].
Defined.

(** X17. A conversion sets [processing], and while [processing] is set no
    conversion can start: until the timer of the last run fires, every
    other event leaves the flag set and the convert button stays
    disabled. *)
Theorem no_conversion_while_processing (E : Env) :
  (forall s, enabled Convert s = true ->
             processing (fire E Convert s) = true /\
             enabled Convert (fire E Convert s) = false) /\
  (forall events s s',
     run E events s s' ->
     processing s = true ->
     ~ In TimerFired events ->
     processing s' = true /\ ~ In Convert events).
Proof.
  split.
  - intros s Hen. destruct (fire_settings E Convert s) as [_ [_ [Hp _]]].
    simpl in Hen. apply andb_true_iff in Hen. destruct Hen as [Hen _].
    apply andb_true_iff in Hen. destruct Hen as [_ Hfiles].
    apply negb_true_iff in Hfiles. rewrite Hfiles in Hp.
    split; [exact Hp |]. simpl. rewrite Hp. apply andb_false_r.
  - intros events s s' Hrun Hbusy.
    induction Hrun as [s | events e s s' Hrun IH Hen]; intros Htimer.
    + split; [exact Hbusy | intros []].
    + assert (Hbefore : ~ In TimerFired events)
        by (intros Hin; apply Htimer, in_or_app; left; exact Hin).
      assert (He : e <> TimerFired)
        by (intros ->; apply Htimer, in_or_app; right; left; reflexivity).
      destruct (IH Hbusy Hbefore) as [Hp Hnone].
      assert (Hc : e <> Convert).
      { intros ->. simpl in Hen. rewrite Hp, andb_false_r in Hen. discriminate. }
      split.
      * destruct (fire_settings E e s') as [_ [_ [Hp' _]]]. rewrite Hp'.
        destruct e; try exact Hp; congruence.
      * intros Hin. apply in_app_or in Hin.
        destruct Hin as [Hin | [Hin | []]]; [contradiction | congruence].
Qed.

Lemma no_conversion_while_processing_witness :
  enabled Convert (fire Demo.env Convert (Demo.loaded [Demo.wide])) = false.
Proof.
  destruct (no_conversion_while_processing Demo.env) as [Hstep _].
  destruct (Hstep (Demo.loaded [Demo.wide])) as [_ Hoff]; [evaluate | exact Hoff].
Defined.

(** X18. Before the engine has loaded nothing is converted: as long as
    [isReady] is false no download was triggered and [processing] is off;
    and [isReady] is true only after the engine loaded. *)
Theorem nothing_before_engine_loaded (E : Env) (events : list Event) (s : State) :
  run E events initial s ->
  (isReady s = false -> downloads s = [] /\ processing s = false) /\
  (isReady s = true -> In EngineLoaded events).
Proof.
  intros Hrun. remember initial as s0 eqn:Hs0.
  induction Hrun as [s0 | events e s0 s' Hrun IH Hen].
  - subst s0. split; [auto | discriminate].
  - specialize (IH Hs0). destruct IH as [Hidle Hloaded].
    destruct (fire_settings E e s') as [_ [Hi [Hp Hd]]].
    rewrite Hi, Hp. split.
    + intros Hoff.
      assert (Hoff' : isReady s' = false) by (destruct e; auto; discriminate).
      destruct (Hidle Hoff') as [Hnone Hfree].
      assert (Hc : e <> Convert).
      { intros ->. simpl in Hen. rewrite Hoff' in Hen. discriminate. }
      rewrite (Hd Hc). split; [exact Hnone |].
      destruct e; auto; congruence.
    + intros Hon. apply in_or_app.
      destruct e; try (left; apply Hloaded; exact Hon).
      right. left. reflexivity.
Qed.

Lemma nothing_before_engine_loaded_witness :
  In EngineLoaded Demo.boxedEvents.
Proof.
  destruct (nothing_before_engine_loaded Demo.env Demo.boxedEvents
              Demo.threeFramesBoxed) as [_ Hloaded].
  - apply replay_run. evaluate.
  - apply Hloaded. evaluate.
Defined.

Lemma flush_zipOutput (before after : State) :
  targetFormat before = targetFormat after ->
  List.length (files before) <> List.length (files after) ->
  (1 < List.length (files after))%nat ->
  makeAnimation after = false ->
  zipOutput (flush before after) = true.
Proof.
  intros Hformat Hcount Hmany Hoff. unfold flush.
  rewrite Hformat, format_eqb_refl.
  destruct (Nat.eqb_spec (List.length (files before)) (List.length (files after)));
    [contradiction |].
  unfold onFilesLength. rewrite Hoff.
  destruct (Nat.ltb_spec 1 (List.length (files after))); [| lia].
  destruct (Nat.ltb_spec (List.length (files after)) 2); [lia |].
  simpl. unfold onResizeBox.
  destruct (_ && _); [reflexivity |].
  destruct (_ && _); reflexivity.
Qed.

(** X19. Whenever a step changes the number of files to two or more while
    merging is off, the watcher ticks the zip box, also when the user had
    unticked it before and also when the step removed a file. *)
Theorem zip_ticked_when_count_changes (E : Env) (e : Event) (s : State) :
  List.length (files (fire E e s)) <> List.length (files s) ->
  (1 < List.length (files (fire E e s)))%nat ->
  makeAnimation s = false ->
  zipOutput (fire E e s) = true.
Proof.
  unfold fire.
  destruct (flush_keeps s (handle E e s)) as [[Hfiles _] _]. rewrite Hfiles.
  intros Hcount Hmany Hoff.
  destruct (convertAndDownload_settings E s) as [Cf _].
  destruct e; simpl in Hcount;
    try (exfalso; apply Hcount; reflexivity);
    try (exfalso; apply Hcount; rewrite Cf; reflexivity);
    apply flush_zipOutput; auto.
Qed.

Lemma zip_ticked_when_count_changes_witness :
  zipOutput (fire Demo.env (RemoveFile "id2")
               (fire Demo.env ToggleZipOutput (Demo.loaded [Demo.wide; Demo.square; Demo.wide])))
  = true.
Proof.
  apply zip_ticked_when_count_changes; [vm_compute; lia | vm_compute; lia | evaluate].
Defined.
